(** * People notebook: birthday reminders, age helper and cascading delete

    A shallow embedding of [app/utils.py] and of the scheduler and delete
    handler of [app/main.py].  Python integers are [Z]; [Optional[int]] is
    [option Z]; an exception is a value of [result].  The clock
    ([date.today()]) and the network ([urlopen]) are explicit arguments. *)

From Stdlib Require Import ZArith List Bool String DecimalString Lia.
Import ListNotations.
Open Scope Z_scope.

(** ** Exceptions *)

(** The exceptions the embedded code can meet.  All of them derive from
    Python's [Exception], so an [except Exception] clause catches every
    constructor. *)
Inductive exn : Type :=
| ValueError
| OverflowError
| URLError (reason : string).

Inductive result (A : Type) : Type :=
| Ok (a : A)
| Raise (e : exn).
Arguments Ok {A} a.
Arguments Raise {A} e.

Definition bind {A B : Type} (r : result A) (k : A -> result B) : result B :=
  match r with
  | Ok a => k a
  | Raise e => Raise e
  end.

Notation "x <- r ;; k" := (bind r (fun x => k))
  (at level 61, r at next level, right associativity).

(** ** The [datetime.date] of the Python library *)

Module PyDate.

Definition MINYEAR : Z := 1.
Definition MAXYEAR : Z := 9999.

Record date : Type := mkdate { year : Z; month : Z; day : Z }.

Definition is_leap (y : Z) : bool :=
  (y mod 4 =? 0) && (negb (y mod 100 =? 0) || (y mod 400 =? 0)).

Definition days_in_month (y m : Z) : Z :=
  if m =? 2 then (if is_leap y then 29 else 28)
  else if (m =? 4) || (m =? 6) || (m =? 9) || (m =? 11) then 30
  else 31.

(** The ranges [date(year, month, day)] checks. *)
Definition valid_dateb (y m d : Z) : bool :=
  (MINYEAR <=? y) && (y <=? MAXYEAR) &&
  (1 <=? m) && (m <=? 12) &&
  (1 <=? d) && (d <=? days_in_month y m).

(** The constructor takes its arguments as C [int]s. *)
Definition INT_MIN : Z := -2147483648.
Definition INT_MAX : Z := 2147483647.

Definition c_int (n : Z) : bool := (INT_MIN <=? n) && (n <=? INT_MAX).

(** [date(year, month, day)]: [OverflowError] when an argument does not fit
    a C [int]; otherwise a date, or [ValueError] when an argument is outside
    its range. *)
Definition date_new (y m d : Z) : result date :=
  if c_int y && c_int m && c_int d then
    if valid_dateb y m d then Ok (mkdate y m d) else Raise ValueError
  else Raise OverflowError.

(** Dates compare as the tuples [(year, month, day)]. *)
Definition date_ltb (a b : date) : bool :=
  (year a <? year b)
  || ((year a =? year b)
      && ((month a <? month b)
          || ((month a =? month b) && (day a <? day b)))).

Definition date_leb (a b : date) : bool := negb (date_ltb b a).

Definition days_before_year (y : Z) : Z :=
  let y1 := y - 1 in y1 * 365 + y1 / 4 - y1 / 100 + y1 / 400.

Fixpoint days_before_month_nat (y : Z) (m : nat) : Z :=
  match m with
  | O => 0
  | S k => days_before_month_nat y k + days_in_month y (Z.of_nat (S k))
  end.

(** Days of the year before the first day of month [m]. *)
Definition days_before_month (y m : Z) : Z :=
  days_before_month_nat y (Z.to_nat (m - 1)).

Definition toordinal (d : date) : Z :=
  days_before_year (year d) + days_before_month (year d) (month d) + day d.

(** [(a - b).days] *)
Definition days_between (a b : date) : Z := toordinal a - toordinal b.

End PyDate.
Import PyDate.

(** ** [_safe_date] *)

(** One run of the [while True] loop of [_safe_date], with [fuel] bounding
    the number of iterations. *)
Fixpoint safe_date_loop (fuel : nat) (year month day : Z)
  : option (result date) :=
  match fuel with
  | O => None
  | S k =>
      match date_new year month day with
      | Ok d => Some (Ok d)
      | Raise ValueError =>
          let day := day - 1 in
          if day <=? 0 then Some (date_new year month 1)
          else safe_date_loop k year month day
      | Raise e => Some (Raise e)
      end
  end.

(** Iterations that always suffice: one per value of [day] down to 1. *)
Definition safe_date_fuel (day : Z) : nat := S (Z.to_nat day).

(** [_safe_date].  The loop never uses up [safe_date_fuel day] iterations
    (lemma [safe_date_loop_enough]), so the last branch is never taken. *)
Definition _safe_date (year month day : Z) : result date :=
  match safe_date_loop (safe_date_fuel day) year month day with
  | Some r => r
  | None => Raise ValueError
  end.

(** The day [_safe_date] settles on when year and month are in range:
    the first of the month for a day below 1, the last day of the month for
    a day beyond it. *)
Definition clamp_day (y m d : Z) : Z :=
  if d <=? 0 then 1 else Z.min d (days_in_month y m).

(** [_safe_date] without its loop, for the proofs to compare it with. *)
Definition corrected (y m d : Z) : result date :=
  if c_int y && c_int m && c_int d then
    if valid_dateb y m 1 then Ok (mkdate y m (clamp_day y m d))
    else Raise ValueError
  else Raise OverflowError.

(** ** Truthiness of optional values *)

(** [bool(x)] for an [Optional[int]]: [None] and [0] are false. *)
Definition truthy (o : option Z) : bool :=
  match o with
  | Some v => negb (v =? 0)
  | None => false
  end.

(** [bool(x)] for an [Optional[str]]: [None] and the empty string are false. *)
Definition truthy_str (o : option string) : bool :=
  match o with
  | Some s => negb (s =? "")%string
  | None => false
  end.

(** [x != y] for an [Optional[int]] [x] and an [int] [y]. *)
Definition opt_neqb (o : option Z) (y : Z) : bool :=
  match o with
  | Some v => negb (v =? y)
  | None => true
  end.

(** ** [utils.calc_age] *)

(** [(a1, a2) < (b1, b2)] on tuples of integers. *)
Definition tuple_ltb (a b : Z * Z) : bool :=
  (fst a <? fst b) || ((fst a =? fst b) && (snd a <? snd b)).

Definition calc_age (today : date) (d m y : option Z) : option Z :=
  if negb (truthy d && truthy m && truthy y) then None
  else
    match d, m, y with
    | Some d, Some m, Some y =>
        match date_new y m d with
        | Ok bd =>
            let age :=
              year today - year bd
              - (if tuple_ltb (month today, day today) (month bd, day bd)
                 then 1 else 0) in
            Some age
        | Raise _ => None
        end
    | _, _, _ => None
    end.

(** The age helper as section 4.3 of the specification words it: unknown
    when a component is absent or the triple is no calendar date, otherwise
    the difference of the years, less one before the birthday. *)
Definition calc_age_spec (today : date) (d m y : option Z) : option Z :=
  match d, m, y with
  | Some d, Some m, Some y =>
      if valid_dateb y m d then
        Some (if tuple_ltb (month today, day today) (m, d)
              then year today - y - 1 else year today - y)
      else None
  | _, _, _ => None
  end.

(** ** The stored entities ([models.py]) *)

(** A [Person] row.  The free-text columns that neither the scheduler nor
    the delete handler reads (phone, email, address, preferences, ...) are
    left out. *)
Record Person : Type := mkPerson {
  id : Z;
  first_name : option string;
  last_name : option string;
  birth_day : option Z;
  birth_month : option Z;
  birth_year : option Z;
  avatar_path : option string;
  notify_year_7d : option Z;
  notify_year_1d : option Z
}.

Record Pet : Type := mkPet {
  pet_id : Z;
  pet_person_id : Z;
  pet_name : string;
  photo_path : option string
}.

Record Child : Type := mkChild {
  child_id : Z;
  child_person_id : Z;
  child_name : string
}.

Record Note : Type := mkNote {
  note_id : Z;
  note_person_id : Z;
  note_body : string
}.

(** The four tables, rows in storage order. *)
Record DB : Type := mkDB {
  persons : list Person;
  pets : list Pet;
  children : list Child;
  notes : list Note
}.

(** [p.notify_year_7d = y] and [p.notify_year_1d = y] *)
Definition set_notify_year_7d (p : Person) (y : Z) : Person :=
  mkPerson (id p) (first_name p) (last_name p) (birth_day p) (birth_month p)
    (birth_year p) (avatar_path p) (Some y) (notify_year_1d p).

Definition set_notify_year_1d (p : Person) (y : Z) : Person :=
  mkPerson (id p) (first_name p) (last_name p) (birth_day p) (birth_month p)
    (birth_year p) (avatar_path p) (notify_year_7d p) (Some y).

(** ** The world outside the process *)

Inductive kind : Type := Days7 | Days1.

(** The text of a reminder, kept structured: which of the two f-strings it
    is, and the person whose names and birth date it renders. *)
Record message : Type := mkMessage { about : kind; subject : Person }.

Inductive event : Type :=
| Posted (on : date) (text : message) (delivered : bool)
| Printed (line : string)
| Committed.

(** What an observer sees: the calendar day, and the events so far, newest
    first. *)
Record world : Type := mkWorld { w_today : date; w_trace : list event }.

Definition record (ev : event) (w : world) : world :=
  mkWorld (w_today w) (ev :: w_trace w).

Definition at_day (d : date) (w : world) : world := mkWorld d (w_trace w).

Definition is_post (ev : event) : bool :=
  match ev with Posted _ _ _ => true | _ => false end.

(** Number of HTTP requests made so far. *)
Definition posts_made (w : world) : nat :=
  List.length (filter is_post (w_trace w)).

(** The configuration read from the process environment, and the two
    collaborators that can fail: the [n]-th HTTP request of the run, and the
    removal of a file of the uploads directory. *)
Record Env : Type := mkEnv {
  TELEGRAM_BOT_TOKEN : option string;
  TELEGRAM_CHAT_ID : option string;
  urlopen : nat -> result unit;
  unlink_raises : string -> bool
}.

(** Computations that act on the world and may raise. *)
Definition M (A : Type) : Type := world -> world * result A.

Definition ret {A : Type} (a : A) : M A := fun w => (w, Ok a).

Definition mbind {A B : Type} (c : M A) (k : A -> M B) : M B :=
  fun w =>
    match c w with
    | (w', Ok a) => k a w'
    | (w', Raise e) => (w', Raise e)
    end.

Definition lift {A : Type} (r : result A) : M A := fun w => (w, r).

Definition print (line : string) : M unit := fun w => (record (Printed line) w, Ok tt).

(** [try: body  except Exception as e: handler(e)] *)
Definition try_except {A : Type} (body : M A) (handler : exn -> M A) : M A :=
  fun w =>
    match body w with
    | (w', Ok a) => (w', Ok a)
    | (w', Raise e) => handler e w'
    end.

Notation "x <~ c ;; k" := (mbind c (fun x => k))
  (at level 61, c at next level, right associativity).

(** ** [_send_telegram] *)

(** [with urlopen(api, data=data, timeout=10) as resp: resp.read()] *)
Definition http_post (E : Env) (text : message) : M unit :=
  fun w =>
    match urlopen E (posts_made w) with
    | Ok _ => (record (Posted (w_today w) text true) w, Ok tt)
    | Raise e => (record (Posted (w_today w) text false) w, Raise e)
    end.

(** [TELEGRAM_BOT_TOKEN and TELEGRAM_CHAT_ID] *)
Definition configured (E : Env) : bool :=
  truthy_str (TELEGRAM_BOT_TOKEN E) && truthy_str (TELEGRAM_CHAT_ID E).

Definition _send_telegram (E : Env) (text : message) : M unit :=
  if negb (configured E) then ret tt
  else
    try_except (http_post E text)
               (fun e => print "Telegram send error").

(** ** [_check_birthdays_and_notify] *)

(** The nearest birthday: this year's, or next year's when this year's is
    before [today]. *)
Definition next_occurrence (today : date) (m d : Z) : result date :=
  let year := year today in
  bday <- _safe_date year m d ;;
  if date_ltb bday today then _safe_date (year + 1) m d else Ok bday.

(** The body of the loop past the guard, for a person whose day [d] and
    month [m] are set. *)
Definition remind (E : Env) (today : date) (p : Person) (d m : Z) : M Person :=
  let year := year today in
  bday <~ lift (next_occurrence today m d) ;;
  let days_left := days_between bday today in
  p <~ (if (days_left =? 7) && opt_neqb (notify_year_7d p) year then
          _ <~ _send_telegram E (mkMessage Days7 p) ;;
          ret (set_notify_year_7d p year)
        else ret p) ;;
  p <~ (if (days_left =? 1) && opt_neqb (notify_year_1d p) year then
          _ <~ _send_telegram E (mkMessage Days1 p) ;;
          ret (set_notify_year_1d p year)
        else ret p) ;;
  ret p.

(** The guard [if not (p.birth_day and p.birth_month): continue]. *)
Definition skipped (p : Person) : bool :=
  negb (truthy (birth_day p) && truthy (birth_month p)).

(** The body of the loop.  Past the guard both values are present, so the
    last branch is never taken. *)
Definition check_person (E : Env) (today : date) (p : Person) : M Person :=
  if skipped p then ret p
  else
    match birth_day p, birth_month p with
    | Some d, Some m => remind E today p d m
    | _, _ => ret p
    end.

(** [for p in people: ...], returning the rows as the session holds them. *)
Fixpoint for_each_person (E : Env) (today : date) (people : list Person)
  : M (list Person) :=
  match people with
  | [] => ret []
  | p :: rest =>
      p' <~ check_person E today p ;;
      rest' <~ for_each_person E today rest ;;
      ret (p' :: rest')
  end.

(** One scan.  The rows changed by the loop live in the session until
    [session.commit()]; an exception leaves the stored rows as they were. *)
Definition _check_birthdays_and_notify (E : Env) (db : DB) (w : world)
  : DB * world * result unit :=
  let today := w_today w in
  let people := persons db in
  match for_each_person E today people w with
  | (w', Ok people') =>
      (mkDB people' (pets db) (children db) (notes db),
       record Committed w', Ok tt)
  | (w', Raise e) => (db, w', Raise e)
  end.

(** One turn of the [while True] loop of [_birthday_watcher]. *)
Definition watcher_tick (E : Env) (db : DB) (w : world) : DB * world :=
  match _check_birthdays_and_notify E db w with
  | (db', w', Ok _) => (db', w')
  | (db', w', Raise e) => (db', record (Printed "Birthday watcher error") w')
  end.

(** The first turns of [_birthday_watcher]; [days] gives the calendar day of
    each turn. *)
Fixpoint _birthday_watcher (E : Env) (days : list date) (db : DB) (w : world)
  : DB * world :=
  match days with
  | [] => (db, w)
  | d :: rest =>
      let (db', w') := watcher_tick E db (at_day d w) in
      _birthday_watcher E rest db' w'
  end.

(** Every scan of the run reaches its commit. *)
Fixpoint scans_complete (E : Env) (days : list date) (db : DB) (w : world)
  : Prop :=
  match days with
  | [] => True
  | d :: rest =>
      match _check_birthdays_and_notify E db (at_day d w) with
      | (db', w', Ok _) => scans_complete E rest db' w'
      | (_, _, Raise _) => False
      end
  end.

Definition kind_eqb (a b : kind) : bool :=
  match a, b with
  | Days7, Days7 | Days1, Days1 => true
  | _, _ => false
  end.

(** Does the event post a reminder of kind [k] about person [pid] in
    calendar year [y]? *)
Definition is_reminder (k : kind) (pid y : Z) (ev : event) : bool :=
  match ev with
  | Posted on text _ =>
      kind_eqb (about text) k && (id (subject text) =? pid) && (year on =? y)
  | _ => false
  end.

(** Number of reminders of kind [k] sent about [pid] in year [y]. *)
Definition sent (k : kind) (pid y : Z) (t : list event) : nat :=
  List.length (filter (is_reminder k pid y) t).

Definition commits (t : list event) : nat :=
  List.length (filter (fun ev => match ev with Committed => true | _ => false end) t).

Definition marker (k : kind) (p : Person) : option Z :=
  match k with
  | Days7 => notify_year_7d p
  | Days1 => notify_year_1d p
  end.

Definition days_of (k : kind) : Z :=
  match k with
  | Days7 => 7
  | Days1 => 1
  end.

(** Does the loop body send the reminder of kind [k] for [p] on [today]?
    The conditions of the source, gathered: the person is not skipped, the
    next birthday is [days_of k] days ahead, and the marker is not this
    year. *)
Definition due (k : kind) (today : date) (p : Person) : bool :=
  match birth_day p, birth_month p with
  | Some d, Some m =>
      negb (skipped p) &&
      match next_occurrence today m d with
      | Ok bday =>
          (days_between bday today =? days_of k)
          && opt_neqb (marker k p) (year today)
      | Raise _ => false
      end
  | _, _ => false
  end.

(** The row as the loop body leaves it when it does not raise. *)
Definition updated (today : date) (p : Person) : Person :=
  let p := if due Days7 today p then set_notify_year_7d p (year today) else p in
  if due Days1 today p then set_notify_year_1d p (year today) else p.

(** What the loop body returns for [p], the world left aside. *)
Definition person_outcome (today : date) (p : Person) : result Person :=
  if skipped p then Ok p
  else
    match birth_day p, birth_month p with
    | Some d, Some m =>
        _ <- next_occurrence today m d ;; Ok (updated today p)
    | _, _ => Ok p
    end.

(** What the loop returns for the rows [people], the world left aside. *)
Fixpoint rows_after (today : date) (people : list Person)
  : result (list Person) :=
  match people with
  | [] => Ok []
  | p :: rest =>
      p' <- person_outcome today p ;;
      rest' <- rows_after today rest ;;
      Ok (p' :: rest')
  end.

(** Number of requests of kind [k] about [pid] that a full pass over
    [people] makes on [today], counted for year [y]. *)
Definition requests (E : Env) (k : kind) (pid y : Z) (today : date)
  (people : list Person) : nat :=
  List.length
    (filter (fun p => configured E && due k today p && (id p =? pid)
                      && (year today =? y)) people).

(** Years never go back along the run. *)
Fixpoint years_ascend (y : Z) (days : list date) : Prop :=
  match days with
  | [] => True
  | d :: rest => y <= year d /\ years_ascend (year d) rest
  end.

(** A row on which the loop body cannot raise: it is skipped, or its birth
    month is a month of the calendar and its birth day fits a C [int]. *)
Definition schedulable (p : Person) : Prop :=
  skipped p = true \/
  exists m d, birth_month p = Some m /\ 1 <= m <= 12 /\
              birth_day p = Some d /\ INT_MIN <= d <= INT_MAX.

(** The loop body returns for [p]: the guard skips the row, or the nearest
    birthday is found. *)
Definition passes (today : date) (p : Person) : Prop :=
  skipped p = true \/
  exists d m bday, birth_day p = Some d /\ birth_month p = Some m /\
                   next_occurrence today m d = Ok bday.

(** The loop body raises [e] for [p]: the row is past the guard and the
    computation of the nearest birthday raises. *)
Definition fails (today : date) (p : Person) (e : exn) : Prop :=
  skipped p = false /\
  exists d m, birth_day p = Some d /\ birth_month p = Some m /\
              next_occurrence today m d = Raise e.

(** The invariant of a run whose years ascend, [ynow] being the year of
    the latest scan: no reminder was sent twice, none is dated after
    [ynow], and whoever got one in [ynow] carries the marker of [ynow]. *)
Definition at_most_once (ynow : Z) (people : list Person) (t : list event)
  : Prop :=
  forall k pid y,
    (sent k pid y t <= 1)%nat /\
    ((1 <= sent k pid y t)%nat -> y <= ynow) /\
    ((1 <= sent k pid ynow t)%nat ->
     forall p, In p people -> id p = pid -> marker k p = Some ynow).

(** ** Uploaded files and the delete handler *)

Definition uploads_prefix : string := "/uploads/".

(** [path.split("/uploads/", 1)[-1]] for a path that starts with the
    prefix. *)
Definition after_prefix (path : string) : string :=
  substring (String.length uploads_prefix)
            (String.length path - String.length uploads_prefix) path.

Definition file_exists (name : string) (fs : list string) : bool :=
  existsb (String.eqb name) fs.

Definition unlink (name : string) (fs : list string) : list string :=
  filter (fun f => negb (String.eqb name f)) fs.

(** [_safe_remove_file]; [fs] lists the files of the uploads directory. *)
Definition _safe_remove_file (E : Env) (path : option string) (fs : list string)
  : list string :=
  match path with
  | None => fs
  | Some path =>
      if (path =? "")%string then fs
      else if prefix uploads_prefix path then
        let fs_path := after_prefix path in
        if file_exists fs_path fs then
          (if unlink_raises E fs_path then fs else unlink fs_path fs)
        else fs
      else fs
  end.

Inductive response : Type :=
| RedirectResponse (url : string) (status_code : Z)
| HTTPException (status_code : Z) (detail : string)
| TemplateResponse (p : Person) (pets : list Pet) (children : list Child)
    (notes : list Note).

(** [session.get(Person, pid)] *)
Definition get_person (db : DB) (pid : Z) : option Person :=
  find (fun p => id p =? pid) (persons db).

(** [for pet in pets: _safe_remove_file(pet.photo_path); session.delete(pet)] *)
Fixpoint delete_pets (E : Env) (selected : list Pet) (table : list Pet)
  (fs : list string) : list Pet * list string :=
  match selected with
  | [] => (table, fs)
  | pet :: rest =>
      let fs := _safe_remove_file E (photo_path pet) fs in
      let table := filter (fun x => negb (pet_id x =? pet_id pet)) table in
      delete_pets E rest table fs
  end.

Fixpoint delete_children (selected : list Child) (table : list Child)
  : list Child :=
  match selected with
  | [] => table
  | c :: rest =>
      delete_children rest
        (filter (fun x => negb (child_id x =? child_id c)) table)
  end.

Fixpoint delete_notes (selected : list Note) (table : list Note) : list Note :=
  match selected with
  | [] => table
  | n :: rest =>
      delete_notes rest (filter (fun x => negb (note_id x =? note_id n)) table)
  end.

Definition person_delete (E : Env) (pid : Z) (db : DB) (fs : list string)
  : DB * list string * response :=
  match get_person db pid with
  | None => (db, fs, RedirectResponse "/" 302)
  | Some p =>
      let selected := filter (fun x => pet_person_id x =? pid) (pets db) in
      let '(pets', fs) := delete_pets E selected (pets db) fs in
      let selected := filter (fun x => child_person_id x =? pid) (children db) in
      let children' := delete_children selected (children db) in
      let selected := filter (fun x => note_person_id x =? pid) (notes db) in
      let notes' := delete_notes selected (notes db) in
      let fs := _safe_remove_file E (avatar_path p) fs in
      let persons' := filter (fun x => negb (id x =? id p)) (persons db) in
      (mkDB persons' pets' children' notes', fs, RedirectResponse "/" 302)
  end.


(** ** [db.init_db]: the additive migration of the [person] table *)

(** A column of a table: its name and its declared type. *)
Definition column : Type := (string * string)%type.

(** The list [desired] of [init_db]. *)
Definition desired : list column :=
  [ ("favorite_movies", "TEXT"); ("favorite_color", "TEXT");
    ("favorite_flowers", "TEXT"); ("marital_status", "TEXT");
    ("partner_name", "TEXT"); ("handedness", "TEXT");
    ("smokes", "INTEGER"); ("avatar_path", "TEXT");
    ("food_prefs", "TEXT"); ("alcohol_prefs", "TEXT");
    ("places_to_go", "TEXT"); ("traits_positive", "TEXT");
    ("traits_negative", "TEXT");
    ("occupation", "TEXT"); ("job_title", "TEXT"); ("workplace", "TEXT");
    ("wishlist", "TEXT");
    ("telegram_username", "TEXT"); ("instagram_username", "TEXT");
    ("vk_username", "TEXT");
    ("apartment", "TEXT");
    ("notify_year_7d", "INTEGER"); ("notify_year_1d", "INTEGER") ]%string.

(** [{row[1] for row in PRAGMA table_info(person)}]: the names of the
    columns the table has. *)
Definition table_info (schema : list column) : list string := map fst schema.

(** [col in cols] *)
Definition has_column (col : string) (cols : list string) : bool :=
  existsb (String.eqb col) cols.

(** [for col, typ in desired: if col not in cols: ALTER TABLE person ADD
    COLUMN col typ]; [cols] was read once, before the loop, and a column
    added by [ALTER TABLE] comes last. *)
Fixpoint add_missing (cols : list string) (wanted : list column)
  (schema : list column) : list column :=
  match wanted with
  | [] => schema
  | (col, typ) :: rest =>
      add_missing cols rest
        (if has_column col cols then schema else schema ++ [(col, typ)])
  end.

(** The migration of [init_db] on the [person] table as [create_all] left
    it. *)
Definition init_db (schema : list column) : list column :=
  add_missing (table_info schema) desired schema.

(** A boolean check that a list of names has no repetition. *)
Fixpoint distinct (names : list string) : bool :=
  match names with
  | [] => true
  | n :: rest => negb (has_column n rest) && distinct rest
  end.

(** ** [pet_delete] and [child_delete] *)

(** [str(n)] for an integer. *)
Definition str_int (n : Z) : string := NilZero.string_of_int (Z.to_int n).

(** [f"/person/{pid}"] *)
Definition person_url (pid : Z) : string := ("/person/" ++ str_int pid)%string.

(** [session.get(Pet, pet_id)] and [session.get(Child, child_id)] *)
Definition get_pet (db : DB) (k : Z) : option Pet :=
  find (fun x => pet_id x =? k) (pets db).

Definition get_child (db : DB) (k : Z) : option Child :=
  find (fun x => child_id x =? k) (children db).

Definition pet_delete (E : Env) (k : Z) (db : DB) (fs : list string)
  : DB * list string * response :=
  match get_pet db k with
  | None => (db, fs, RedirectResponse "/" 302)
  | Some pet =>
      let pid := pet_person_id pet in
      let fs := _safe_remove_file E (photo_path pet) fs in
      let pets' := filter (fun x => negb (pet_id x =? pet_id pet)) (pets db) in
      (mkDB (persons db) pets' (children db) (notes db), fs,
       RedirectResponse (person_url pid) 302)
  end.

Definition child_delete (k : Z) (db : DB) : DB * response :=
  match get_child db k with
  | None => (db, RedirectResponse "/" 302)
  | Some c =>
      let pid := child_person_id c in
      let children' :=
        filter (fun x => negb (child_id x =? child_id c)) (children db) in
      (mkDB (persons db) (pets db) children' (notes db),
       RedirectResponse (person_url pid) 302)
  end.

(** Some stored person has the id [pid]. *)
Definition owned (db : DB) (pid : Z) : Prop :=
  exists p, In p (persons db) /\ id p = pid.

(** Every pet, child and note row references a stored person. *)
Definition integrity (db : DB) : Prop :=
  (forall x, In x (pets db) -> owned db (pet_person_id x)) /\
  (forall x, In x (children db) -> owned db (child_person_id x)) /\
  (forall x, In x (notes db) -> owned db (note_person_id x)).

(** The file of the uploads directory that a stored path refers to. *)
Definition refers_to (path : option string) (g : string) : Prop :=
  exists name, path = Some name /\ prefix uploads_prefix name = true /\
               g = after_prefix name.



(** ** Relations between a row before and after a scan *)

(** [q] is [p] with, at most, other notification markers; a marker that
    differs is the year [y]. *)
Definition same_but_markers (y : Z) (p q : Person) : Prop :=
  id q = id p /\ first_name q = first_name p /\ last_name q = last_name p /\
  birth_day q = birth_day p /\ birth_month q = birth_month p /\
  birth_year q = birth_year p /\ avatar_path q = avatar_path p /\
  forall k, marker k q = marker k p \/ marker k q = Some y.



(** ** Calendar arithmetic for the proofs *)

(** 1 in a leap year, 0 otherwise. *)
Definition leap_day (y : Z) : Z := if is_leap y then 1 else 0.

(** The rank of a day within its year, from 1. *)
Definition day_of_year (y m d : Z) : Z := days_before_month y m + d.

(** ** Text as Python sees it, and [utils.compose_address] *)

(** A [str] value as its sequence of code points: [strip] works on
    characters, not on bytes. *)
Definition str : Type := list Z.

(** [c.isspace()] for one character: the characters Python counts as
    whitespace. *)
Definition isspace (c : Z) : bool :=
  ((9 <=? c) && (c <=? 13)) || ((28 <=? c) && (c <=? 32))
  || (c =? 133) || (c =? 160) || (c =? 5760)
  || ((8192 <=? c) && (c <=? 8202))
  || (c =? 8232) || (c =? 8233) || (c =? 8239) || (c =? 8287)
  || (c =? 12288).

(** [s.lstrip()], [s.rstrip()] and [s.strip()] *)
Fixpoint lstrip (s : str) : str :=
  match s with
  | [] => []
  | c :: rest => if isspace c then lstrip rest else s
  end.

Definition rstrip (s : str) : str := rev (lstrip (rev s)).

Definition strip (s : str) : str := lstrip (rstrip s).

(** [sep.join(parts)] *)
Fixpoint join (sep : str) (parts : list str) : str :=
  match parts with
  | [] => []
  | [p] => p
  | p :: rest => p ++ sep ++ join sep rest
  end.

(** The code points of a literal made of ASCII characters. *)
Fixpoint of_ascii (s : string) : str :=
  match s with
  | EmptyString => []
  | String c rest => Z.of_nat (Ascii.nat_of_ascii c) :: of_ascii rest
  end.

(** [p and p.strip()] as a condition: [p] is present, not empty, and not
    empty once stripped. *)
Definition nonblank (p : option str) : bool :=
  match p with
  | Some s =>
      negb (match s with [] => true | _ => false end)
      && negb (match strip s with [] => true | _ => false end)
  | None => false
  end.

(** The literal ["кв. "] of the f-string. *)
Definition apartment_marker : str := [1082; 1074; 46; 32].

Definition compose_address (city address apartment : option str)
  : option str :=
  let parts :=
    flat_map (fun p => match p with
                       | Some s => if nonblank p then [strip s] else []
                       | None => []
                       end)
             [city; address] in
  let parts :=
    match apartment with
    | Some apt =>
        if nonblank apartment then parts ++ [strip (apartment_marker ++ apt)]
        else parts
    | None => parts
    end in
  match parts with
  | [] => None
  | _ => Some (join (of_ascii ", ") parts)
  end.

(** A text of whitespace only (the empty text included). *)
Definition blank (s : str) : Prop := forallb isspace s = true.

(** A text that neither starts nor ends with whitespace and is not
    empty. *)
Definition trimmed (s : str) : Prop :=
  (exists c rest, s = c :: rest /\ isspace c = false) /\
  (exists front c, s = front ++ [c] /\ isspace c = false).



(** ** The user-name fields of [create_person] and [update_person] *)

(** [s.lstrip("@")] *)
Fixpoint lstrip_at (s : str) : str :=
  match s with
  | [] => []
  | c :: rest => if c =? 64 then lstrip_at rest else s
  end.

(** [x or ""] *)
Definition or_empty (x : option str) : str :=
  match x with
  | Some (c :: rest) => c :: rest
  | _ => []
  end.

(** [(x or "").lstrip("@") or None], the value stored for
    [telegram_username], [instagram_username] and [vk_username]. *)
Definition username_field (x : option str) : option str :=
  match lstrip_at (or_empty x) with
  | [] => None
  | c :: rest => Some (c :: rest)
  end.

(** * Properties *)

(** ** The calendar *)

Lemma days_in_month_bounds (y m : Z) : 28 <= days_in_month y m <= 31.
Proof.
  unfold days_in_month.
  destruct (m =? 2); [destruct (is_leap y); lia|].
  destruct ((m =? 4) || (m =? 6) || (m =? 9) || (m =? 11)); lia.
Qed.

Lemma valid_dateb_spec (y m d : Z) :
  valid_dateb y m d = true <->
  MINYEAR <= y <= MAXYEAR /\ 1 <= m <= 12 /\ 1 <= d <= days_in_month y m.
Proof.
  unfold valid_dateb.
  rewrite !andb_true_iff, !Z.leb_le. tauto.
Qed.

Lemma valid_dateb_first (y m d : Z) :
  valid_dateb y m d = true -> valid_dateb y m 1 = true.
Proof.
  rewrite !valid_dateb_spec.
  pose proof (days_in_month_bounds y m). lia.
Qed.

Lemma c_int_spec (n : Z) : c_int n = true <-> INT_MIN <= n <= INT_MAX.
Proof. unfold c_int. rewrite andb_true_iff, !Z.leb_le. tauto. Qed.

Lemma c_int_args (y m d : Z) :
  c_int y && c_int m && c_int d = true <->
  (INT_MIN <= y <= INT_MAX /\ INT_MIN <= m <= INT_MAX) /\
  INT_MIN <= d <= INT_MAX.
Proof. now rewrite !andb_true_iff, !c_int_spec. Qed.

Lemma valid_dateb_c_int (y m d : Z) :
  valid_dateb y m d = true -> c_int y && c_int m && c_int d = true.
Proof.
  intros Hv. apply valid_dateb_spec in Hv. apply c_int_args.
  pose proof (days_in_month_bounds y m).
  unfold MINYEAR, MAXYEAR, INT_MIN, INT_MAX in *. lia.
Qed.

Lemma date_new_valid (y m d : Z) :
  valid_dateb y m d = true -> date_new y m d = Ok (mkdate y m d).
Proof.
  intros Hv. unfold date_new. now rewrite (valid_dateb_c_int _ _ _ Hv), Hv.
Qed.

Lemma date_new_invalid (y m d : Z) :
  c_int y && c_int m && c_int d = true ->
  valid_dateb y m d = false -> date_new y m d = Raise ValueError.
Proof. unfold date_new. now intros -> ->. Qed.

Lemma date_new_overflow (y m d : Z) :
  c_int y && c_int m && c_int d = false ->
  date_new y m d = Raise OverflowError.
Proof. unfold date_new. now intros ->. Qed.

Lemma date_new_Ok (y m d : Z) (dt : date) :
  date_new y m d = Ok dt -> dt = mkdate y m d /\ valid_dateb y m d = true.
Proof.
  unfold date_new. destruct (c_int y && c_int m && c_int d); [|discriminate].
  destruct (valid_dateb y m d); [|discriminate].
  intros [= <-]. now split.
Qed.

(** ** [_safe_date] in closed form *)

Lemma clamp_day_valid (y m d : Z) :
  valid_dateb y m 1 = true -> valid_dateb y m (clamp_day y m d) = true.
Proof.
  rewrite !valid_dateb_spec. unfold clamp_day.
  pose proof (days_in_month_bounds y m).
  destruct (Z.leb_spec d 0); lia.
Qed.

Lemma clamp_day_id (y m d : Z) :
  valid_dateb y m d = true -> clamp_day y m d = d.
Proof.
  rewrite valid_dateb_spec. unfold clamp_day.
  destruct (Z.leb_spec d 0); lia.
Qed.

Lemma safe_date_loop_corrected (fuel : nat) :
  forall y m d, (Z.to_nat d < fuel)%nat ->
  safe_date_loop fuel y m d = Some (corrected y m d).
Proof.
  induction fuel as [|k IH]; intros y m d Hfuel; [lia|].
  cbn [safe_date_loop].
  destruct (c_int y && c_int m && c_int d) eqn:Hc.
  2: { rewrite (date_new_overflow _ _ _ Hc). unfold corrected.
       now rewrite Hc. }
  pose proof (proj1 (c_int_args y m d) Hc) as [[Hy Hm] Hd].
  destruct (valid_dateb y m d) eqn:Hv.
  - rewrite (date_new_valid _ _ _ Hv). unfold corrected.
    rewrite Hc, (valid_dateb_first _ _ _ Hv), (clamp_day_id _ _ _ Hv).
    reflexivity.
  - rewrite (date_new_invalid _ _ _ Hc Hv). cbv zeta.
    destruct (Z.leb_spec (d - 1) 0) as [Hle|Hgt].
    + assert (Hc1 : c_int y && c_int m && c_int 1 = true)
        by (apply c_int_args; unfold INT_MIN, INT_MAX in *; lia).
      unfold corrected, date_new. rewrite Hc, Hc1.
      destruct (valid_dateb y m 1) eqn:H1; [|reflexivity].
      do 3 f_equal. unfold clamp_day.
      destruct (Z.leb_spec d 0); [reflexivity|].
      assert (d = 1) by lia. subst d. congruence.
    + assert (Hc' : c_int y && c_int m && c_int (d - 1) = true)
        by (apply c_int_args; unfold INT_MIN, INT_MAX in *; lia).
      rewrite IH by lia. f_equal. unfold corrected. rewrite Hc, Hc'.
      destruct (valid_dateb y m 1) eqn:H1; [|reflexivity].
      do 2 f_equal. unfold clamp_day.
      destruct (Z.leb_spec (d - 1) 0); [lia|].
      destruct (Z.leb_spec d 0); [lia|].
      assert (days_in_month y m < d); [|lia].
      apply valid_dateb_spec in H1.
      destruct (Z.le_gt_cases d (days_in_month y m)); [|lia].
      assert (valid_dateb y m d = true); [|congruence].
      apply valid_dateb_spec. lia.
Qed.

Lemma safe_date_corrected (y m d : Z) : _safe_date y m d = corrected y m d.
Proof.
  unfold _safe_date, safe_date_fuel.
  rewrite safe_date_loop_corrected by lia. reflexivity.
Qed.

Lemma safe_date_loop_enough (fuel : nat) (y m d : Z) :
  (Z.to_nat d < fuel)%nat ->
  safe_date_loop fuel y m d = Some (_safe_date y m d).
Proof.
  intros H. rewrite safe_date_corrected.
  now apply safe_date_loop_corrected.
Qed.

Lemma safe_date_Ok (y m d : Z) (dt : date) :
  _safe_date y m d = Ok dt ->
  valid_dateb y m 1 = true /\ dt = mkdate y m (clamp_day y m d).
Proof.
  rewrite safe_date_corrected. unfold corrected.
  destruct (c_int y && c_int m && c_int d); [|discriminate].
  destruct (valid_dateb y m 1); [|discriminate].
  intros [= <-]. now split.
Qed.

Lemma safe_date_in_range (y m d : Z) :
  valid_dateb y m 1 = true -> INT_MIN <= d <= INT_MAX ->
  _safe_date y m d = Ok (mkdate y m (clamp_day y m d)).
Proof.
  intros H Hd. rewrite safe_date_corrected. unfold corrected.
  pose proof (proj1 (c_int_args _ _ _) (valid_dateb_c_int _ _ _ H))
    as [Hym _].
  rewrite (proj2 (c_int_args y m d) (conj Hym Hd)). now rewrite H.
Qed.

Lemma safe_date_out_of_range (y m d : Z) :
  valid_dateb y m 1 = false ->
  _safe_date y m d
  = Raise (if c_int y && c_int m && c_int d then ValueError
           else OverflowError).
Proof.
  intros H. rewrite safe_date_corrected. unfold corrected. rewrite H.
  now destruct (c_int y && c_int m && c_int d).
Qed.

Lemma safe_date_day_overflow (y m d : Z) :
  ~ INT_MIN <= d <= INT_MAX -> _safe_date y m d = Raise OverflowError.
Proof.
  intros H. rewrite safe_date_corrected. unfold corrected.
  destruct (c_int y && c_int m && c_int d) eqn:Hc; [|reflexivity].
  apply c_int_args in Hc. tauto.
Qed.

Lemma clamp_day_c_int (y m d : Z) : INT_MIN <= clamp_day y m d <= INT_MAX.
Proof.
  unfold clamp_day. pose proof (days_in_month_bounds y m).
  unfold INT_MIN, INT_MAX. destruct (Z.leb_spec d 0); lia.
Qed.

Lemma first_of_month_valid (y m : Z) :
  MINYEAR <= y <= MAXYEAR -> 1 <= m <= 12 -> valid_dateb y m 1 = true.
Proof.
  intros Hy Hm. apply valid_dateb_spec.
  pose proof (days_in_month_bounds y m). lia.
Qed.

(** ** Claims about [_safe_date] *)

(** C3, as stated, fails: with a month outside 1..12 the day counts down to
    zero and the fallback [date(year, month, 1)] raises instead of returning
    the first day of the month; and a day that does not fit a C [int]
    raises [OverflowError] at the first construction, which the loop does
    not catch. *)
Lemma safe_date_month_13_raises :
  (valid_dateb 2023 13 5 = false /\ _safe_date 2023 13 5 = Raise ValueError)
  /\ (valid_dateb 2023 2 2147483648 = false
      /\ _safe_date 2023 2 2147483648 = Raise OverflowError).
Proof.
  split; [split; reflexivity|]. split; [reflexivity|].
  rewrite safe_date_corrected. reflexivity.
Qed.

(** C3 (amended): for a year in 1..9999, a month in 1..12 and a day that
    fits a C [int], a day that forms no valid date is corrected to the
    first valid date met while counting the day down, or to the first of
    the month when the count reaches zero; 30 February becomes 29 February
    in a leap year and 28 February otherwise. *)
Theorem safe_date_corrects_invalid_day (y m d : Z) :
  MINYEAR <= y <= MAXYEAR -> 1 <= m <= 12 ->
  INT_MIN <= d <= INT_MAX ->
  valid_dateb y m d = false ->
  (exists d',
      _safe_date y m d = Ok (mkdate y m d') /\
      valid_dateb y m d' = true /\
      ((d' < d /\ forall k, d' < k <= d -> valid_dateb y m k = false) \/
       (d' = 1 /\ forall k, 1 <= k <= d -> valid_dateb y m k = false))) /\
  _safe_date y 2 30 = Ok (mkdate y 2 (if is_leap y then 29 else 28)).
Proof.
  intros Hy Hm Hint Hd.
  pose proof (first_of_month_valid y m Hy Hm) as H1.
  pose proof (days_in_month_bounds y m) as Hb.
  split.
  - exists (clamp_day y m d).
    split; [now apply safe_date_in_range|].
    split; [now apply clamp_day_valid|].
    assert (Hcase : d <= 0 \/ days_in_month y m < d).
    { destruct (Z.le_gt_cases d 0) as [|Hpos]; [now left|right].
      destruct (Z.le_gt_cases d (days_in_month y m)); [|lia].
      assert (valid_dateb y m d = true); [|congruence].
      apply valid_dateb_spec. lia. }
    unfold clamp_day.
    destruct Hcase as [Hle|Hgt].
    + right. destruct (Z.leb_spec d 0); [|lia].
      split; [reflexivity|]. intros k Hk. lia.
    + left. destruct (Z.leb_spec d 0); [lia|].
      split; [lia|]. intros k Hk.
      destruct (valid_dateb y m k) eqn:Hvk; [|reflexivity].
      apply valid_dateb_spec in Hvk. lia.
  - rewrite safe_date_in_range
      by (try apply first_of_month_valid; unfold INT_MIN, INT_MAX; lia).
    unfold clamp_day, days_in_month. cbn.
    destruct (is_leap y); reflexivity.
Qed.

Lemma safe_date_corrects_invalid_day_witness :
  _safe_date 2023 2 30 = Ok (mkdate 2023 2 28) /\
  _safe_date 2024 2 30 = Ok (mkdate 2024 2 29).
Proof.
  split.
  - exact (proj2 (safe_date_corrects_invalid_day 2023 2 30
                    ltac:(unfold MINYEAR, MAXYEAR; lia) ltac:(lia)
                    ltac:(unfold INT_MIN, INT_MAX; lia) eq_refl)).
  - exact (proj2 (safe_date_corrects_invalid_day 2024 2 30
                    ltac:(unfold MINYEAR, MAXYEAR; lia) ltac:(lia)
                    ltac:(unfold INT_MIN, INT_MAX; lia) eq_refl)).
Defined.

(** C4: the corrected date depends on the triple alone (equal triples give
    equal results, whatever the bound on the iterations of the loop), and
    correcting the year, month and day of a corrected date returns that
    date. *)
Theorem safe_date_idempotent (y m d : Z) (dt : date) :
  _safe_date y m d = Ok dt ->
  (forall y' m' d' fuel, y' = y -> m' = m -> d' = d ->
     (Z.to_nat d' < fuel)%nat ->
     safe_date_loop fuel y' m' d' = Some (Ok dt)) /\
  _safe_date (year dt) (month dt) (day dt) = Ok dt.
Proof.
  intros H. split.
  - intros y' m' d' fuel -> -> -> Hfuel.
    rewrite safe_date_loop_enough by assumption. now rewrite H.
  - apply safe_date_Ok in H. destruct H as [H1 ->]. cbn [year month day].
    rewrite safe_date_in_range by (trivial; apply clamp_day_c_int).
    rewrite clamp_day_id; [reflexivity|now apply clamp_day_valid].
Qed.

Lemma safe_date_idempotent_witness :
  _safe_date 2023 2 28 = Ok (mkdate 2023 2 28).
Proof.
  exact (proj2 (safe_date_idempotent 2023 2 30 (mkdate 2023 2 28) eq_refl)).
Defined.

(** C10, as stated, fails: with the month in range, a year outside 1..9999
    makes every construction raise, the fallback included; and a day that
    does not fit a C [int] makes the first construction raise
    [OverflowError], which the loop does not catch. *)
Lemma safe_date_year_10000_raises :
  1 <= 1 <= 12 /\ _safe_date 10000 1 15 = Raise ValueError
  /\ _safe_date 0 1 15 = Raise ValueError
  /\ _safe_date 2023 2 2147483648 = Raise OverflowError.
Proof.
  split; [lia|]. split; [reflexivity|]. split; [reflexivity|].
  rewrite safe_date_corrected. reflexivity.
Qed.

(** C10 (amended): for a year in 1..9999, a month in 1..12 and a day that
    fits a C [int] the loop ends within [day + 1] iterations and returns a
    valid date of that year and month; for a day that does not fit a C
    [int] it raises [OverflowError]; outside 1..12 for the month it raises
    [ValueError], or [OverflowError] when month or day does not fit. *)
Theorem safe_date_total (y m d : Z) :
  MINYEAR <= y <= MAXYEAR ->
  (1 <= m <= 12 -> INT_MIN <= d <= INT_MAX ->
   exists dt,
     (forall fuel, (Z.to_nat d < fuel)%nat ->
        safe_date_loop fuel y m d = Some (Ok dt)) /\
     _safe_date y m d = Ok dt /\
     year dt = y /\ month dt = m /\
     valid_dateb (year dt) (month dt) (day dt) = true) /\
  (~ INT_MIN <= d <= INT_MAX -> _safe_date y m d = Raise OverflowError) /\
  (~ 1 <= m <= 12 ->
   _safe_date y m d
   = Raise (if c_int m && c_int d then ValueError else OverflowError)).
Proof.
  intros Hy. split; [|split].
  - intros Hm Hd. pose proof (first_of_month_valid y m Hy Hm) as H1.
    exists (mkdate y m (clamp_day y m d)). cbn [year month day].
    pose proof (safe_date_in_range y m d H1 Hd) as Hs.
    repeat split; trivial.
    + intros fuel Hfuel. rewrite safe_date_loop_enough by assumption.
      now rewrite Hs.
    + now apply clamp_day_valid.
  - apply safe_date_day_overflow.
  - intros Hm. rewrite safe_date_out_of_range.
    + assert (Hcy : c_int y = true)
        by (apply c_int_spec;
            unfold MINYEAR, MAXYEAR, INT_MIN, INT_MAX in *; lia).
      now rewrite Hcy.
    + destruct (valid_dateb y m 1) eqn:Hv; [|reflexivity].
      apply valid_dateb_spec in Hv. lia.
Qed.

Lemma safe_date_total_witness :
  exists dt, _safe_date 2023 2 (-4) = Ok dt /\ day dt = 1.
Proof.
  destruct (proj1 (safe_date_total 2023 2 (-4)
                     ltac:(unfold MINYEAR, MAXYEAR; lia)) ltac:(lia)
              ltac:(unfold INT_MIN, INT_MAX; lia))
    as [dt [_ [H _]]].
  exists dt. split; [exact H|].
  rewrite safe_date_corrected in H. now injection H as <-.
Defined.

(** ** [calc_age] *)

Lemma truthy_false_invalid (d m y : Z) :
  truthy (Some d) && truthy (Some m) && truthy (Some y) = false ->
  valid_dateb y m d = false.
Proof.
  intros H. destruct (valid_dateb y m d) eqn:Hv; [|reflexivity].
  apply valid_dateb_spec in Hv. unfold MINYEAR in Hv.
  cbn [truthy] in H.
  destruct (Z.eqb_spec d 0), (Z.eqb_spec m 0), (Z.eqb_spec y 0);
    cbn in H; try discriminate; lia.
Qed.

(** C7: [calc_age] is unknown when a component is absent or the triple is
    no calendar date, and otherwise the difference of the years, less one
    when today's (month, day) comes before the birth (month, day);
    [calc_age(None, 5, 2000)] is unknown and [calc_age(15, 3, 1990)] is
    [year - 1990 - 1] before 15 March and [year - 1990] from then on. *)
Theorem calc_age_meets_spec (today : date) :
  (forall d m y, calc_age today d m y = calc_age_spec today d m y) /\
  calc_age today None (Some 5) (Some 2000) = None /\
  calc_age today (Some 15) (Some 3) (Some 1990) =
    Some (if tuple_ltb (month today, day today) (3, 15)
          then year today - 1990 - 1 else year today - 1990).
Proof.
  assert (Hgen : forall d m y,
             calc_age today d m y = calc_age_spec today d m y).
  { intros [d|] [m|] [y|]; unfold calc_age, calc_age_spec;
      try reflexivity;
      try (destruct (truthy _); reflexivity);
      try (destruct (truthy _), (truthy _); reflexivity).
    destruct (truthy (Some d) && truthy (Some m) && truthy (Some y)) eqn:Ht.
    - cbn [negb]. destruct (valid_dateb y m d) eqn:Hv.
      + rewrite (date_new_valid _ _ _ Hv). cbn [year month day].
        destruct (tuple_ltb _ _); f_equal; lia.
      + destruct (date_new y m d) as [bd|e] eqn:Hn; [|reflexivity].
        apply date_new_Ok in Hn. destruct Hn. congruence.
    - cbn [negb]. now rewrite (truthy_false_invalid _ _ _ Ht). }
  split; [exact Hgen|]. split; [reflexivity|].
  rewrite Hgen. reflexivity.
Qed.

(** [calc_age] on the example of the specification, on two calendar days. *)
Example calc_age_before_birthday :
  calc_age (mkdate 2024 3 14) (Some 15) (Some 3) (Some 1990) = Some 33.
Proof. reflexivity. Qed.

Example calc_age_on_birthday :
  calc_age (mkdate 2024 3 15) (Some 15) (Some 3) (Some 1990) = Some 34.
Proof. reflexivity. Qed.

(** ** The skip guard and the next birthday *)

Lemma skipped_false (p : Person) :
  skipped p = false ->
  exists d m, birth_day p = Some d /\ birth_month p = Some m /\
              d <> 0 /\ m <> 0.
Proof.
  unfold skipped, truthy.
  destruct (birth_day p) as [d|]; [|discriminate].
  destruct (birth_month p) as [m|]; [|rewrite andb_false_r; discriminate].
  destruct (Z.eqb_spec d 0), (Z.eqb_spec m 0); cbn; try discriminate.
  intros _. exists d, m. repeat split; assumption.
Qed.

Lemma skipped_true_iff (p : Person) :
  skipped p = true <->
  (birth_day p = None \/ birth_day p = Some 0) \/
  (birth_month p = None \/ birth_month p = Some 0).
Proof.
  split.
  - intros H. unfold skipped, truthy in H.
    destruct (birth_day p) as [d|]; [|now left; left].
    destruct (birth_month p) as [m|]; [|now right; left].
    destruct (Z.eqb_spec d 0); [subst; now left; right|].
    destruct (Z.eqb_spec m 0); [subst; now right; right|].
    cbn in H. discriminate.
  - intros H. destruct (skipped p) eqn:Hs; [reflexivity|].
    destruct (skipped_false p Hs) as [d [m [Hd [Hm [Hd0 Hm0]]]]].
    destruct H as [[H|H]|[H|H]]; congruence.
Qed.

(** C6, as stated, fails: a person with a birth day and no birth month does
    not lack both, and is skipped all the same. *)
Lemma day_without_month_is_skipped :
  let p := mkPerson 1 (Some "Ada"%string) None (Some 5) None None None None None in
  skipped p = true /\ birth_day p <> None.
Proof. split; [reflexivity|discriminate]. Qed.

(** C6 (amended): a person is skipped, with no reminder computation, no
    notification and no marker change, exactly when the birth day or the
    birth month is lacking (absent, or zero); every person with both set is
    processed by the reminder computation. *)
Theorem skip_guard (E : Env) (today : date) (p : Person) (w : world) :
  (skipped p = true <->
   (birth_day p = None \/ birth_day p = Some 0) \/
   (birth_month p = None \/ birth_month p = Some 0)) /\
  (skipped p = true -> check_person E today p w = (w, Ok p)) /\
  (skipped p = false ->
   exists d m, birth_day p = Some d /\ birth_month p = Some m /\
               d <> 0 /\ m <> 0 /\
               check_person E today p w = remind E today p d m w).
Proof.
  split; [apply skipped_true_iff|]. split.
  - intros Hs. unfold check_person. now rewrite Hs.
  - intros Hs. destruct (skipped_false p Hs) as [d [m [Hd [Hm [Hd0 Hm0]]]]].
    exists d, m. repeat split; trivial.
    unfold check_person. now rewrite Hs, Hd, Hm.
Qed.

(** C2, as stated, fails: for a person born on 29 February the scan of
    28 February 2023 finds the next birthday to be that very day; and for a
    stored birth day that does not fit a C [int] the computation raises
    [OverflowError] and returns no date. *)
Lemma leap_day_birthday_falls_on_feb_28 :
  let today := mkdate 2023 2 28 in
  (next_occurrence today 2 29 = Ok today /\
   (2, 29) <> (month today, day today)) /\
  next_occurrence today 2 2147483648 = Raise OverflowError.
Proof.
  split; [split; [reflexivity|discriminate]|].
  unfold next_occurrence. cbv zeta. rewrite safe_date_corrected.
  reflexivity.
Qed.

(** C2 (amended): for a person whose birth day is set and fits a C [int]
    and whose birth month is in 1..12, in a year before 9999, the next
    occurrence is a date not before today, and it is today only when the
    birth month is today's month and the birth day, corrected for the
    current year, is today's day; so for a birth day that forms a valid
    date this year, only when (birth month, birth day) is today's
    (month, day). *)
Theorem next_occurrence_not_before_today (today : date) (p : Person) (d m : Z) :
  skipped p = false ->
  birth_day p = Some d -> birth_month p = Some m ->
  MINYEAR <= year today < MAXYEAR ->
  1 <= m <= 12 ->
  INT_MIN <= d <= INT_MAX ->
  exists bday,
    next_occurrence today m d = Ok bday /\
    date_leb today bday = true /\
    (bday = today ->
     m = month today /\ clamp_day (year today) m d = day today /\
     (valid_dateb (year today) m d = true ->
      (m, d) = (month today, day today))).
Proof.
  intros _ _ _ Hy Hm Hd.
  unfold next_occurrence. cbv zeta.
  rewrite (safe_date_in_range (year today) m d)
    by (trivial; apply first_of_month_valid; lia).
  cbn [bind].
  destruct (date_ltb (mkdate (year today) m (clamp_day (year today) m d)) today)
    eqn:Hlt.
  - rewrite safe_date_in_range
      by (trivial; apply first_of_month_valid;
          unfold MINYEAR, MAXYEAR in *; lia).
    eexists. split; [reflexivity|]. split.
    + unfold date_leb, date_ltb. cbn [year month day].
      destruct (Z.ltb_spec (year today + 1) (year today)); [lia|].
      destruct (Z.eqb_spec (year today + 1) (year today)); [lia|].
      reflexivity.
    + intros Heq. apply (f_equal year) in Heq. cbn in Heq. lia.
  - eexists. split; [reflexivity|]. split.
    + unfold date_leb. now rewrite Hlt.
    + intros Heq.
      pose proof (f_equal month Heq) as H1.
      pose proof (f_equal day Heq) as H2. cbn in H1, H2.
      split; [exact H1|]. split; [exact H2|].
      intros Hv. rewrite (clamp_day_id _ _ _ Hv) in H2. congruence.
Qed.

Lemma next_occurrence_not_before_today_witness :
  exists bday,
    next_occurrence (mkdate 2023 3 4) 3 11 = Ok bday /\
    date_leb (mkdate 2023 3 4) bday = true.
Proof.
  destruct (next_occurrence_not_before_today (mkdate 2023 3 4)
              (mkPerson 1 None None (Some 11) (Some 3) None None None None)
              11 3 eq_refl eq_refl eq_refl
              ltac:(unfold MINYEAR, MAXYEAR; cbn; lia) ltac:(lia)
              ltac:(unfold INT_MIN, INT_MAX; lia))
    as [bday [H1 [H2 _]]].
  exists bday. now split.
Defined.

(** ** The sender and the loop body *)

Lemma sent_cons (k : kind) (pid y : Z) (ev : event) (t : list event) :
  sent k pid y (ev :: t) =
  Nat.add (if is_reminder k pid y ev then 1%nat else 0%nat)
              (sent k pid y t).
Proof. unfold sent. cbn [filter]. now destruct (is_reminder k pid y ev). Qed.

Lemma commits_cons (ev : event) (t : list event) :
  commits (ev :: t) =
  Nat.add (match ev with Committed => 1%nat | _ => 0%nat end) (commits t).
Proof. unfold commits. cbn [filter]. now destruct ev. Qed.

Lemma mbind_Ok {A B : Type} (c : M A) (k : A -> M B) (w w' : world) (a : A) :
  c w = (w', Ok a) -> mbind c k w = k a w'.
Proof. unfold mbind. now intros ->. Qed.

Lemma mbind_Raise {A B : Type} (c : M A) (k : A -> M B) (w w' : world)
  (e : exn) :
  c w = (w', Raise e) -> mbind c k w = (w', Raise e).
Proof. unfold mbind. now intros ->. Qed.

(** What a call of the sender leaves behind: it returns normally, the day
    is the same, nothing is committed, and at most one request about
    [text] has been made. *)
Lemma send_telegram_spec (E : Env) (text : message) (w : world) :
  exists w',
    _send_telegram E text w = (w', Ok tt) /\
    w_today w' = w_today w /\
    commits (w_trace w') = commits (w_trace w) /\
    forall k pid y,
      sent k pid y (w_trace w') =
      Nat.add (if configured E
           && is_reminder k pid y (Posted (w_today w) text true) then 1%nat else 0%nat)
              (sent k pid y (w_trace w)).
Proof.
  unfold _send_telegram.
  destruct (configured E); cbn [negb andb].
  - unfold try_except, http_post, print.
    destruct (urlopen E (posts_made w)) as [u|e].
    + eexists. split; [reflexivity|]. cbn [record w_today w_trace].
      split; [reflexivity|]. split; [now rewrite commits_cons|].
      intros k pid y. now rewrite sent_cons.
    + eexists. split; [reflexivity|]. cbn [record w_today w_trace].
      split; [reflexivity|]. split; [now rewrite !commits_cons|].
      intros k pid y. now rewrite !sent_cons.
  - exists w. unfold ret. repeat split; trivial.
Qed.

(** One of the two [if days_left == ...] blocks of the loop body. *)
Lemma reminder_block (E : Env) (c : bool) (text : message) (p q : Person)
  (w : world) :
  exists w',
    (if c then (_ <~ _send_telegram E text ;; ret q) else ret p) w
    = (w', Ok (if c then q else p)) /\
    w_today w' = w_today w /\
    commits (w_trace w') = commits (w_trace w) /\
    forall k pid y,
      sent k pid y (w_trace w') =
      Nat.add (if c && configured E
           && is_reminder k pid y (Posted (w_today w) text true) then 1%nat else 0%nat)
              (sent k pid y (w_trace w)).
Proof.
  destruct c.
  - destruct (send_telegram_spec E text w) as [w' [Hs [Hd [Hc Hn]]]].
    exists w'. unfold mbind. rewrite Hs. cbn [andb].
    repeat split; trivial.
  - exists w. unfold ret. repeat split; trivial.
Qed.

Lemma due_stamped_7d (today : date) (p : Person) (y : Z) :
  due Days1 today (set_notify_year_7d p y) = due Days1 today p.
Proof. reflexivity. Qed.

Lemma id_updated (today : date) (p : Person) : id (updated today p) = id p.
Proof.
  unfold updated.
  destruct (due Days7 today p); rewrite ?due_stamped_7d;
    destruct (due Days1 today p); reflexivity.
Qed.

Lemma marker_updated (k : kind) (today : date) (p : Person) :
  marker k (updated today p) =
  if due k today p then Some (year today) else marker k p.
Proof.
  unfold updated.
  destruct (due Days7 today p) eqn:H7; rewrite ?due_stamped_7d;
    destruct (due Days1 today p) eqn:H1; destruct k;
    cbn [marker]; rewrite ?H7, ?H1; reflexivity.
Qed.

Lemma is_reminder_about (k k' : kind) (pid y : Z) (on : date) (p : Person)
  (b : bool) :
  is_reminder k pid y (Posted on (mkMessage k' p) b) =
  kind_eqb k' k && (id p =? pid) && (year on =? y).
Proof. reflexivity. Qed.

Lemma due_skipped (k : kind) (today : date) (p : Person) :
  skipped p = true -> due k today p = false.
Proof.
  unfold due. intros ->.
  destruct (birth_day p), (birth_month p); reflexivity.
Qed.

(** The loop body on one person: it raises before anything is sent, or it
    returns the updated row after the requests that were due. *)
Lemma check_person_spec (E : Env) (today : date) (p : Person) (w : world) :
  w_today w = today ->
  (exists e, check_person E today p w = (w, Raise e) /\
             person_outcome today p = Raise e) \/
  (exists w',
      check_person E today p w = (w', Ok (updated today p)) /\
      person_outcome today p = Ok (updated today p) /\
      w_today w' = today /\
      commits (w_trace w') = commits (w_trace w) /\
      forall k pid y,
        sent k pid y (w_trace w') =
        Nat.add (if configured E && due k today p && (id p =? pid)
             && (year today =? y) then 1%nat else 0%nat)
              (sent k pid y (w_trace w))).
Proof.
  intros Hday. unfold check_person, person_outcome.
  destruct (skipped p) eqn:Hskip.
  - right. exists w. unfold ret, updated.
    rewrite (due_skipped Days7 today p Hskip),
            (due_skipped Days1 today p Hskip).
    repeat split; trivial.
    intros k pid y. now rewrite (due_skipped k today p Hskip), andb_false_r.
  - destruct (skipped_false p Hskip) as [d [m [Hd [Hm _]]]].
    rewrite Hd, Hm. unfold remind. cbv zeta.
    destruct (next_occurrence today m d) as [bday|e] eqn:Hnext;
      [|left; exists e; split; [now apply mbind_Raise|reflexivity]].
    right. rewrite (mbind_Ok _ _ w w bday) by reflexivity. cbv beta.
    cbn [bind].
    set (c7 := (days_between bday today =? 7)
               && opt_neqb (notify_year_7d p) (year today)).
    destruct (reminder_block E c7 (mkMessage Days7 p) p
                (set_notify_year_7d p (year today)) w)
      as [w1 [Hb1 [Hd1 [Hc1 Hn1]]]].
    rewrite (mbind_Ok _ _ _ _ _ Hb1).
    set (p1 := if c7 then set_notify_year_7d p (year today) else p) in *.
    set (c1 := (days_between bday today =? 1)
               && opt_neqb (notify_year_1d p1) (year today)).
    destruct (reminder_block E c1 (mkMessage Days1 p1) p1
                (set_notify_year_1d p1 (year today)) w1)
      as [w2 [Hb2 [Hd2 [Hc2 Hn2]]]].
    rewrite (mbind_Ok _ _ _ _ _ Hb2). unfold ret.
    assert (H7 : due Days7 today p = c7).
    { unfold due. now rewrite Hd, Hm, Hskip, Hnext. }
    assert (Hsame : notify_year_1d p1 = notify_year_1d p)
      by (unfold p1; now destruct c7).
    assert (H1' : due Days1 today p = c1).
    { unfold due, c1. rewrite Hd, Hm, Hskip, Hnext, Hsame. reflexivity. }
    assert (H1 : due Days1 today p1 = c1).
    { rewrite <- H1'. unfold p1. destruct c7; [|reflexivity].
      apply due_stamped_7d. }
    assert (Hid : id p1 = id p) by (unfold p1; now destruct c7).
    assert (Hup : updated today p
                  = if c1 then set_notify_year_1d p1 (year today) else p1).
    { unfold updated. rewrite H7. fold p1. now rewrite H1. }
    rewrite Hup. exists w2.
    split; [reflexivity|]. split; [reflexivity|].
    split; [congruence|]. split; [congruence|].
    intros k pid y. rewrite Hn2, Hn1, Hd1, !is_reminder_about, Hid, Hday.
    rewrite <- H7, <- H1'.
    destruct k; cbn [kind_eqb];
      destruct (due Days7 today p), (due Days1 today p), (configured E),
        (id p =? pid), (year today =? y); reflexivity.
Qed.

(** ** The loop over the rows and the scan *)

Lemma requests_cons (E : Env) (k : kind) (pid y : Z) (today : date)
  (p : Person) (rest : list Person) :
  requests E k pid y today (p :: rest) =
  Nat.add (if configured E && due k today p && (id p =? pid)
              && (year today =? y) then 1%nat else 0%nat)
          (requests E k pid y today rest).
Proof.
  unfold requests. cbn [filter].
  now destruct (configured E && due k today p && (id p =? pid)
                && (year today =? y)).
Qed.

Lemma rows_after_Ok (today : date) (people rows : list Person) :
  rows_after today people = Ok rows -> rows = map (updated today) people.
Proof.
  revert rows. induction people as [|p rest IH]; intros rows; cbn.
  - now intros [= <-].
  - unfold person_outcome.
    destruct (skipped p) eqn:Hskip.
    + cbn [bind]. destruct (rows_after today rest) as [rest'|e];
        [|discriminate].
      cbn [bind]. intros [= <-]. rewrite (IH rest' eq_refl).
      unfold updated.
      now rewrite (due_skipped Days7 today p Hskip),
                  (due_skipped Days1 today p Hskip).
    + destruct (skipped_false p Hskip) as [d [m [Hd [Hm _]]]].
      rewrite Hd, Hm.
      destruct (next_occurrence today m d); [|discriminate].
      cbn [bind]. destruct (rows_after today rest) as [rest'|e];
        [|discriminate].
      cbn [bind]. intros [= <-]. now rewrite (IH rest' eq_refl).
Qed.

(** The loop: what it returns is [rows_after], it commits nothing, and when
    it completes it has made the requests that were due. *)
Lemma for_each_person_spec (E : Env) (today : date) (people : list Person) :
  forall w, w_today w = today ->
  exists w',
    for_each_person E today people w = (w', rows_after today people) /\
    w_today w' = today /\
    commits (w_trace w') = commits (w_trace w) /\
    (forall rows, rows_after today people = Ok rows ->
     forall k pid y,
       sent k pid y (w_trace w') =
       Nat.add (requests E k pid y today people) (sent k pid y (w_trace w))).
Proof.
  induction people as [|p rest IH]; intros w Hday.
  - exists w. cbn. unfold ret. repeat split; trivial.
  - cbn [for_each_person rows_after].
    destruct (check_person_spec E today p w Hday)
      as [[e [Hc Ho]]|[w1 [Hc [Ho [Hd1 [Hc1 Hn1]]]]]].
    + exists w. rewrite (mbind_Raise _ _ _ _ _ Hc), Ho. cbn [bind].
      repeat split; trivial. discriminate.
    + rewrite (mbind_Ok _ _ _ _ _ Hc), Ho. cbn [bind].
      destruct (IH w1 Hd1) as [w2 [Hf [Hd2 [Hc2 Hn2]]]].
      exists w2. destruct (rows_after today rest) as [rest'|e] eqn:Hrest.
      * rewrite (mbind_Ok _ _ _ _ _ Hf). unfold ret. cbn [bind].
        split; [reflexivity|]. split; [assumption|].
        split; [congruence|].
        intros rows _ k pid y.
        rewrite (Hn2 rest' eq_refl), Hn1, requests_cons. lia.
      * rewrite (mbind_Raise _ _ _ _ _ Hf). cbn [bind].
        split; [reflexivity|]. split; [assumption|].
        split; [congruence|]. discriminate.
Qed.

Lemma passes_outcome (today : date) (p : Person) :
  passes today p -> person_outcome today p = Ok (updated today p).
Proof.
  intros Hp. unfold person_outcome.
  destruct (skipped p) eqn:Hskip.
  - unfold updated.
    now rewrite (due_skipped Days7 today p Hskip),
                (due_skipped Days1 today p Hskip).
  - destruct Hp as [Hp|[d [m [bday [Hd [Hm Hnext]]]]]]; [congruence|].
    now rewrite Hd, Hm, Hnext.
Qed.

Lemma fails_outcome (today : date) (p : Person) (e : exn) :
  fails today p e -> person_outcome today p = Raise e.
Proof.
  intros [Hskip [d [m [Hd [Hm Hnext]]]]]. unfold person_outcome.
  now rewrite Hskip, Hd, Hm, Hnext.
Qed.

Lemma rows_after_all_pass (today : date) (people : list Person) :
  Forall (passes today) people ->
  rows_after today people = Ok (map (updated today) people).
Proof.
  intros Hall. induction Hall as [|p rest Hp Hrest IH]; [reflexivity|].
  cbn [rows_after map]. now rewrite (passes_outcome today p Hp), IH.
Qed.

Lemma rows_after_one_fails (today : date) (people : list Person) :
  Exists (fun p => exists e, fails today p e) people ->
  exists e, rows_after today people = Raise e.
Proof.
  intros Hex. induction Hex as [p rest [e Hp]|p rest Hex IH].
  - exists e. cbn [rows_after]. now rewrite (fails_outcome today p e Hp).
  - destruct IH as [e IH]. cbn [rows_after].
    destruct (person_outcome today p) as [q|e']; [|now exists e'].
    cbn [bind]. rewrite IH. now exists e.
Qed.

(** C8: when the loop body returns for every person (the row is skipped or
    its nearest birthday is found), the scan ends normally with exactly one
    commit, recorded after the whole loop and all its requests, and stores
    the updated rows of all people together; when the loop body raises for
    some person, the scan raises, commits nothing and leaves the stored
    rows as they were.  Either all marker updates of a run are stored, or
    none. *)
Theorem scan_commits_once (E : Env) (db : DB) (w : world) :
  let today := w_today w in
  let loop := for_each_person E today (persons db) w in
  let '(db', w', r) := _check_birthdays_and_notify E db w in
  (Forall (passes today) (persons db) ->
   r = Ok tt /\
   w' = record Committed (fst loop) /\
   commits (w_trace (fst loop)) = commits (w_trace w) /\
   commits (w_trace w') = S (commits (w_trace w)) /\
   db' = mkDB (map (updated today) (persons db))
              (pets db) (children db) (notes db)) /\
  (Exists (fun p => exists e, fails today p e) (persons db) ->
   (exists e, r = Raise e) /\
   w' = fst loop /\
   commits (w_trace w') = commits (w_trace w) /\
   db' = db) /\
  ((r = Ok tt /\
    commits (w_trace w') = S (commits (w_trace w)) /\
    db' = mkDB (map (updated today) (persons db))
               (pets db) (children db) (notes db))
   \/
   ((exists e, r = Raise e) /\
    commits (w_trace w') = commits (w_trace w) /\
    db' = db)).
Proof.
  cbv zeta. unfold _check_birthdays_and_notify.
  destruct (for_each_person_spec E (w_today w) (persons db) w eq_refl)
    as [w' [Hf [Hd [Hc _]]]].
  rewrite Hf. cbn [fst].
  destruct (rows_after (w_today w) (persons db)) as [rows|e] eqn:Hrows.
  - pose proof (rows_after_Ok _ _ _ Hrows) as ->.
    cbn [record w_trace]. rewrite commits_cons, Hc.
    split; [|split].
    + intros _. now repeat split.
    + intros Hex. destruct (rows_after_one_fails _ _ Hex) as [e He].
      congruence.
    + left. now repeat split.
  - split; [|split].
    + intros Hall. rewrite (rows_after_all_pass _ _ Hall) in Hrows.
      discriminate.
    + intros _. repeat split; trivial. now exists e.
    + right. repeat split; trivial. now exists e.
Qed.

(** A scan over a person whose reminder is due and a person without a
    birth date: one commit, and both rows stored, the first with its
    marker. *)
Lemma scan_commits_once_witness :
  let E := mkEnv (Some "token"%string) (Some "chat"%string)
             (fun _ => Raise (URLError "timed out")) (fun _ => false) in
  let today := mkdate 2023 3 4 in
  let ada := mkPerson 1 (Some "Ada"%string) None (Some 11) (Some 3) None
               None None None in
  let bob := mkPerson 2 (Some "Bob"%string) None None None None
               None None None in
  let db := mkDB [ada; bob] [] [] [] in
  let out := _check_birthdays_and_notify E db (mkWorld today []) in
  snd out = Ok tt /\
  commits (w_trace (snd (fst out))) = 1%nat /\
  persons (fst (fst out)) = [set_notify_year_7d ada 2023; bob].
Proof.
  cbv zeta.
  pose proof (scan_commits_once
                (mkEnv (Some "token"%string) (Some "chat"%string)
                   (fun _ => Raise (URLError "timed out")) (fun _ => false))
                (mkDB [mkPerson 1 (Some "Ada"%string) None (Some 11) (Some 3)
                         None None None None;
                       mkPerson 2 (Some "Bob"%string) None None None None
                         None None None] [] [] [])
                (mkWorld (mkdate 2023 3 4) [])) as H.
  cbv zeta in H.
  destruct (_check_birthdays_and_notify _ _ _) as [[db' w'] r].
  destruct H as [H _]. cbn [fst snd].
  destruct H as [Hr [_ [_ [Hc Hdb]]]].
  - constructor.
    + right. exists 11, 3, (mkdate 2023 3 11). now repeat split.
    + constructor; [now left|constructor].
  - split; [exact Hr|]. split; [exact Hc|]. now rewrite Hdb.
Defined.

Lemma scan_Ok (E : Env) (db db' : DB) (w w' : world) (u : unit) :
  _check_birthdays_and_notify E db w = (db', w', Ok u) ->
  persons db' = map (updated (w_today w)) (persons db) /\
  forall k pid y,
    sent k pid y (w_trace w')
    = Nat.add (requests E k pid y (w_today w) (persons db))
              (sent k pid y (w_trace w)).
Proof.
  unfold _check_birthdays_and_notify.
  destruct (for_each_person_spec E (w_today w) (persons db) w eq_refl)
    as [w1 [Hf [_ [_ Hn]]]].
  rewrite Hf.
  destruct (rows_after (w_today w) (persons db)) as [rows|e] eqn:Hrows;
    [|discriminate].
  intros [= <- <- _]. cbn [persons record w_trace]. split.
  - now apply rows_after_Ok.
  - intros k pid y. rewrite sent_cons. cbn [is_reminder].
    now rewrite (Hn rows eq_refl).
Qed.

(** ** Delivery failures *)

Lemma due_true (k : kind) (today : date) (p : Person) (d m : Z) (bday : date) :
  skipped p = false ->
  birth_day p = Some d -> birth_month p = Some m ->
  next_occurrence today m d = Ok bday ->
  days_between bday today = days_of k ->
  marker k p <> Some (year today) ->
  due k today p = true.
Proof.
  intros Hskip Hd Hm Hnext Hleft Hmark.
  unfold due. rewrite Hd, Hm, Hskip, Hnext, Hleft, Z.eqb_refl.
  cbn [negb andb]. unfold opt_neqb.
  destruct (marker k p) as [v|]; [|reflexivity].
  destruct (Z.eqb_spec v (year today)); [congruence|reflexivity].
Qed.

Lemma due_marked (k : kind) (today : date) (p : Person) :
  marker k p = Some (year today) -> due k today p = false.
Proof.
  intros Hmark. unfold due. rewrite Hmark. cbn [opt_neqb].
  rewrite Z.eqb_refl. cbn [negb].
  destruct (birth_day p), (birth_month p); trivial.
  destruct (next_occurrence today z0 z); now rewrite ?andb_false_r.
Qed.

(** C5: a person who passes the [days_left] check of a reminder with a
    marker that is not the current year leaves the loop body with the
    marker set to the current year, whatever the network does; the sender
    returns normally on every outcome of the request; and the rows a scan
    stores and the way it ends are the same under every network. *)
Theorem delivery_failure_does_not_block (E : Env) (k : kind) (today : date)
  (p : Person) (d m : Z) (bday : date) (w : world) :
  w_today w = today ->
  skipped p = false ->
  birth_day p = Some d -> birth_month p = Some m ->
  next_occurrence today m d = Ok bday ->
  days_between bday today = days_of k ->
  marker k p <> Some (year today) ->
  (exists w' p',
      check_person E today p w = (w', Ok p') /\
      marker k p' = Some (year today)) /\
  (forall text w0, exists w1, _send_telegram E text w0 = (w1, Ok tt)) /\
  (forall text w0 e,
      configured E = true -> urlopen E (posts_made w0) = Raise e ->
      _send_telegram E text w0
      = (record (Printed "Telegram send error")
           (record (Posted (w_today w0) text false) w0), Ok tt)) /\
  (forall db db' w1 w1' u,
      In p (persons db) -> w_today w1 = today ->
      _check_birthdays_and_notify E db w1 = (db', w1', Ok u) ->
      exists p', In p' (persons db') /\ id p' = id p /\
                 marker k p' = Some (year today)) /\
  (forall E' db w1 w2,
      w_today w1 = w_today w2 ->
      let '(db1, _, r1) := _check_birthdays_and_notify E db w1 in
      let '(db2, _, r2) := _check_birthdays_and_notify E' db w2 in
      db1 = db2 /\ r1 = r2).
Proof.
  intros Hday Hskip Hd Hm Hnext Hleft Hmark.
  pose proof (due_true k today p d m bday Hskip Hd Hm Hnext Hleft Hmark)
    as Hdue.
  split; [|split; [|split; [|split]]].
  - destruct (check_person_spec E today p w Hday)
      as [[e [_ Ho]]|[w' [Hc _]]].
    + unfold person_outcome in Ho. rewrite Hskip, Hd, Hm, Hnext in Ho.
      discriminate.
    + exists w', (updated today p). split; [exact Hc|].
      now rewrite marker_updated, Hdue.
  - intros text w0.
    destruct (send_telegram_spec E text w0) as [w1 [Hs _]]. now exists w1.
  - intros text w0 e Hconf Hnet.
    unfold _send_telegram. rewrite Hconf. cbn [negb].
    unfold try_except, http_post. now rewrite Hnet.
  - intros db db' w1 w1' u Hin Hday1 Hscan.
    destruct (scan_Ok _ _ _ _ _ _ Hscan) as [Hrows _].
    exists (updated today p). rewrite Hrows, Hday1. split; [|split].
    + now apply in_map.
    + apply id_updated.
    + now rewrite marker_updated, Hdue.
  - intros E' db w1 w2 Hsame.
    unfold _check_birthdays_and_notify.
    destruct (for_each_person_spec E (w_today w1) (persons db) w1 eq_refl)
      as [w1' [Hf1 _]].
    destruct (for_each_person_spec E' (w_today w2) (persons db) w2 eq_refl)
      as [w2' [Hf2 _]].
    rewrite Hf1, Hf2, Hsame.
    destruct (rows_after (w_today w2) (persons db)); now split.
Qed.

Lemma delivery_failure_does_not_block_witness :
  let E := mkEnv (Some "token"%string) (Some "chat"%string)
             (fun _ => Raise (URLError "timed out")) (fun _ => false) in
  let today := mkdate 2023 3 4 in
  let p := mkPerson 1 (Some "Ada"%string) None (Some 11) (Some 3) (Some 1990)
             None None None in
  exists w' p',
    check_person E today p (mkWorld today []) = (w', Ok p') /\
    notify_year_7d p' = Some 2023.
Proof.
  cbv zeta.
  exact (proj1 (delivery_failure_does_not_block
                  (mkEnv (Some "token"%string) (Some "chat"%string)
                     (fun _ => Raise (URLError "timed out")) (fun _ => false))
                  Days7 (mkdate 2023 3 4)
                  (mkPerson 1 (Some "Ada"%string) None (Some 11) (Some 3)
                     (Some 1990) None None None)
                  11 3 (mkdate 2023 3 11) (mkWorld (mkdate 2023 3 4) [])
                  eq_refl eq_refl eq_refl eq_refl eq_refl eq_refl
                  ltac:(discriminate))).
Defined.

(** ** At most one reminder per person, kind and year *)

Lemma id_unique (people : list Person) (p q : Person) :
  NoDup (map id people) -> In p people -> In q people -> id p = id q -> p = q.
Proof.
  induction people as [|a rest IH]; cbn; [tauto|].
  intros Hnd [Hp|Hp] [Hq|Hq] Heq.
  - congruence.
  - subst a. inversion Hnd as [|? ? Hnotin _]. exfalso. apply Hnotin.
    rewrite Heq. now apply in_map.
  - subst a. inversion Hnd as [|? ? Hnotin _]. exfalso. apply Hnotin.
    rewrite <- Heq. now apply in_map.
  - inversion Hnd. now apply IH.
Qed.

Lemma requests_positive (E : Env) (k : kind) (pid y : Z) (today : date)
  (people : list Person) :
  (1 <= requests E k pid y today people)%nat ->
  exists p, In p people /\ due k today p = true /\ id p = pid /\
            year today = y.
Proof.
  unfold requests. intros Hpos.
  destruct (filter _ people) as [|p rest] eqn:Hf; [cbn in Hpos; lia|].
  assert (Hin : In p (p :: rest)) by now left.
  rewrite <- Hf in Hin. apply filter_In in Hin. destruct Hin as [Hin Hc].
  rewrite !andb_true_iff in Hc. destruct Hc as [[[_ Hdue] Hid] Hy].
  exists p. repeat split; trivial; now apply Z.eqb_eq.
Qed.

Lemma requests_at_most_one (E : Env) (k : kind) (pid y : Z) (today : date)
  (people : list Person) :
  NoDup (map id people) -> (requests E k pid y today people <= 1)%nat.
Proof.
  induction people as [|p rest IH]; intros Hnd; [cbn; lia|].
  inversion Hnd as [|? ? Hnotin Hrest]. subst.
  rewrite requests_cons. specialize (IH Hrest).
  destruct (configured E && due k today p && (id p =? pid)
            && (year today =? y)) eqn:Hc; [|lia].
  rewrite !andb_true_iff in Hc. destruct Hc as [[_ Hid] _].
  apply Z.eqb_eq in Hid.
  destruct (Nat.eq_dec (requests E k pid y today rest) 0) as [->|Hne];
    [lia|].
  destruct (requests_positive E k pid y today rest) as [q [Hq [_ [Hqid _]]]];
    [lia|].
  exfalso. apply Hnotin. rewrite Hid, <- Hqid. now apply in_map.
Qed.

(** A completed scan in a year not before the latest keeps the invariant. *)
Lemma at_most_once_step (E : Env) (ynow : Z) (today : date)
  (people : list Person) (t t' : list event) :
  NoDup (map id people) ->
  ynow <= year today ->
  at_most_once ynow people t ->
  (forall k pid y,
      sent k pid y t' = Nat.add (requests E k pid y today people)
                                (sent k pid y t)) ->
  at_most_once (year today) (map (updated today) people) t'.
Proof.
  intros Hnd Hle Hinv Hsent k pid y.
  assert (Hclash : forall y',
             (1 <= requests E k pid y' today people)%nat ->
             (1 <= sent k pid y' t)%nat -> False).
  { intros y' Hr Hs.
    destruct (requests_positive _ _ _ _ _ _ Hr) as [p [Hin [Hdue [Hid Hy]]]].
    destruct (Hinv k pid y') as [_ [Hold _]]. specialize (Hold Hs).
    assert (Hyy : y' = ynow) by lia.
    destruct (Hinv k pid ynow) as [_ [_ Hmark]].
    rewrite Hyy in Hs. specialize (Hmark Hs p Hin Hid).
    assert (Hm2 : marker k p = Some (year today))
      by (rewrite Hmark; f_equal; lia).
    rewrite (due_marked _ _ _ Hm2) in Hdue. discriminate. }
  pose proof (requests_at_most_one E k pid y today people Hnd) as Hr1.
  destruct (Hinv k pid y) as [Hs1 [Hold _]].
  split; [|split].
  - rewrite Hsent.
    destruct (Nat.eq_dec (requests E k pid y today people) 0) as [->|Hr];
      [exact Hs1|].
    destruct (Nat.eq_dec (sent k pid y t) 0) as [->|Hs]; [lia|].
    exfalso. apply (Hclash y); lia.
  - rewrite Hsent. intros Hpos.
    destruct (Nat.eq_dec (requests E k pid y today people) 0) as [Hr|Hr].
    + assert (y <= ynow) by (apply Hold; lia). lia.
    + destruct (requests_positive E k pid y today people)
        as [_ [_ [_ [_ Hy]]]]; lia.
  - rewrite Hsent. intros Hpos p' Hin' Hid'.
    apply in_map_iff in Hin'. destruct Hin' as [p [<- Hin]].
    rewrite id_updated in Hid'. rewrite marker_updated.
    destruct (due k today p) eqn:Hdue; [reflexivity|].
    destruct (Nat.eq_dec (requests E k pid (year today) today people) 0)
      as [Hr|Hr].
    + destruct (Hinv k pid (year today)) as [_ [Hold' _]].
      assert (Hyy : year today = ynow)
        by (specialize (Hold' ltac:(lia)); lia).
      destruct (Hinv k pid ynow) as [_ [_ Hmark]].
      rewrite Hyy in Hpos, Hr |- *. apply Hmark; trivial. lia.
    + destruct (requests_positive E k pid (year today) today people)
        as [q [Hq [Hqdue [Hqid _]]]]; [lia|].
      assert (q = p) by (apply (id_unique people); congruence).
      subst q. congruence.
Qed.

Lemma run_keeps_at_most_once (E : Env) (days : list date) :
  forall db w ynow,
    NoDup (map id (persons db)) ->
    at_most_once ynow (persons db) (w_trace w) ->
    years_ascend ynow days ->
    scans_complete E days db w ->
    exists y1,
      at_most_once y1 (persons (fst (_birthday_watcher E days db w)))
        (w_trace (snd (_birthday_watcher E days db w))).
Proof.
  induction days as [|d rest IH]; intros db w ynow Hnd Hinv Hasc Hdone.
  - exists ynow. exact Hinv.
  - cbn [_birthday_watcher scans_complete years_ascend] in *.
    destruct Hasc as [Hle Hasc]. unfold watcher_tick.
    destruct (_check_birthdays_and_notify E db (at_day d w))
      as [[db1 w1] [u|e]] eqn:Hscan; [|contradiction].
    destruct (scan_Ok _ _ _ _ _ _ Hscan) as [Hrows Hsent].
    cbn [at_day w_today w_trace] in Hrows, Hsent.
    apply (IH db1 w1 (year d)); trivial.
    + rewrite Hrows, map_map.
      erewrite map_ext; [exact Hnd|]. intros p. apply id_updated.
    + rewrite Hrows.
      now apply (at_most_once_step E ynow d (persons db) (w_trace w)).
Qed.

(** *** When every scan completes *)

Lemma next_occurrence_returns (today : date) (m d : Z) :
  MINYEAR <= year today < MAXYEAR -> 1 <= m <= 12 ->
  INT_MIN <= d <= INT_MAX ->
  exists bday, next_occurrence today m d = Ok bday.
Proof.
  intros Hy Hm Hd. unfold next_occurrence. cbv zeta.
  rewrite (safe_date_in_range (year today) m d)
    by (trivial; apply first_of_month_valid; lia).
  cbn [bind]. destruct (date_ltb _ today); [|now eexists].
  rewrite safe_date_in_range
    by (trivial; apply first_of_month_valid;
        unfold MINYEAR, MAXYEAR in *; lia).
  now eexists.
Qed.

Lemma person_outcome_schedulable (today : date) (p : Person) :
  MINYEAR <= year today < MAXYEAR -> schedulable p ->
  person_outcome today p = Ok (updated today p).
Proof.
  intros Hy Hp. unfold person_outcome.
  destruct (skipped p) eqn:Hskip.
  - unfold updated.
    now rewrite (due_skipped Days7 today p Hskip),
                (due_skipped Days1 today p Hskip).
  - destruct Hp as [Hp|[m [d [Hm [Hrange [Hd Hint]]]]]]; [congruence|].
    rewrite Hd, Hm.
    destruct (next_occurrence_returns today m d Hy Hrange Hint) as [bday ->].
    reflexivity.
Qed.

Lemma rows_after_schedulable (today : date) (people : list Person) :
  MINYEAR <= year today < MAXYEAR -> Forall schedulable people ->
  rows_after today people = Ok (map (updated today) people).
Proof.
  intros Hy Hall. induction Hall as [|p rest Hp Hrest IH]; [reflexivity|].
  cbn [rows_after map].
  now rewrite (person_outcome_schedulable today p Hy Hp), IH.
Qed.

Lemma schedulable_updated (today : date) (p : Person) :
  schedulable p -> schedulable (updated today p).
Proof.
  assert (Hsame : skipped (updated today p) = skipped p
                  /\ birth_month (updated today p) = birth_month p
                  /\ birth_day (updated today p) = birth_day p).
  { unfold updated. destruct (due Days7 today p); rewrite ?due_stamped_7d;
      destruct (due Days1 today p); now repeat split. }
  destruct Hsame as [Hs [Hm Hd]]. unfold schedulable. now rewrite Hs, Hm, Hd.
Qed.

(** With calendar months in every row and years before 9999, every scan of
    a run reaches its commit. *)
Lemma scans_complete_schedulable (E : Env) (days : list date) :
  forall db w,
    Forall schedulable (persons db) ->
    Forall (fun d => MINYEAR <= year d < MAXYEAR) days ->
    scans_complete E days db w.
Proof.
  induction days as [|d rest IH]; intros db w Hrows Hdays; [exact I|].
  inversion Hdays as [|? ? Hd Hrest]. subst.
  cbn [scans_complete]. unfold _check_birthdays_and_notify.
  destruct (for_each_person_spec E (w_today (at_day d w)) (persons db)
              (at_day d w) eq_refl) as [w' [Hf _]].
  rewrite Hf. cbn [at_day w_today].
  rewrite (rows_after_schedulable d (persons db) Hd Hrows).
  apply IH; [|assumption]. cbn [persons].
  rewrite Forall_map. eapply Forall_impl; [|exact Hrows].
  intros p. apply schedulable_updated.
Qed.

(** C1, as stated, fails: a row with month 13 makes every scan raise after
    the reminder about person 1 was sent and before the commit, so the
    second scan of the same day sends it again. *)
Lemma aborted_scan_repeats_reminder :
  let E := mkEnv (Some "token"%string) (Some "chat"%string)
             (fun _ => Ok tt) (fun _ => false) in
  let today := mkdate 2023 3 4 in
  let ada := mkPerson 1 (Some "Ada"%string) None (Some 11) (Some 3) None
               None None None in
  let bob := mkPerson 2 (Some "Bob"%string) None (Some 1) (Some 13) None
               None None None in
  let db := mkDB [ada; bob] [] [] [] in
  sent Days7 1 2023
    (w_trace (snd (_birthday_watcher E [today; today] db (mkWorld today []))))
  = 2%nat.
Proof. vm_compute. reflexivity. Qed.

(** C1 (amended): over any number of scans that each reach their commit,
    with years that never go back, at most one reminder of each kind is
    sent per person and calendar year; and a loop body that finds the
    marker of a kind equal to the current year sends no reminder of that
    kind. *)
Theorem at_most_one_reminder_per_year (E : Env) (days : list date) (db : DB)
  (w : world) (y0 : Z) :
  NoDup (map id (persons db)) ->
  (forall k pid y, sent k pid y (w_trace w) = 0%nat) ->
  years_ascend y0 days ->
  scans_complete E days db w ->
  (forall k pid y,
      (sent k pid y (w_trace (snd (_birthday_watcher E days db w))) <= 1)%nat)
  /\
  (forall k today p w0,
      w_today w0 = today ->
      marker k p = Some (year today) ->
      forall pid y,
        sent k pid y (w_trace (fst (check_person E today p w0)))
        = sent k pid y (w_trace w0)).
Proof.
  intros Hnd Hfresh Hasc Hdone. split.
  - destruct (run_keeps_at_most_once E days db w y0 Hnd) as [y1 Hinv];
      trivial.
    + intros k pid y. rewrite !Hfresh. repeat split; lia.
    + intros k pid y. now destruct (Hinv k pid y).
  - intros k today p w0 Hday Hmark pid y.
    destruct (check_person_spec E today p w0 Hday)
      as [[e [Hc _]]|[w' [Hc [_ [_ [_ Hn]]]]]]; rewrite Hc; cbn [fst].
    + reflexivity.
    + now rewrite Hn, (due_marked _ _ _ Hmark), andb_false_r.
Qed.

Lemma at_most_one_reminder_per_year_witness :
  let E := mkEnv (Some "token"%string) (Some "chat"%string)
             (fun _ => Ok tt) (fun _ => false) in
  let today := mkdate 2023 3 4 in
  let ada := mkPerson 1 (Some "Ada"%string) None (Some 11) (Some 3) None
               None None None in
  let db := mkDB [ada] [] [] [] in
  (sent Days7 1 2023
     (w_trace (snd (_birthday_watcher E [today; today] db (mkWorld today []))))
   <= 1)%nat.
Proof.
  cbv zeta.
  refine (proj1 (at_most_one_reminder_per_year
                   (mkEnv (Some "token"%string) (Some "chat"%string)
                      (fun _ => Ok tt) (fun _ => false))
                   [mkdate 2023 3 4; mkdate 2023 3 4]
                   (mkDB [mkPerson 1 (Some "Ada"%string) None (Some 11)
                            (Some 3) None None None None] [] [] [])
                   (mkWorld (mkdate 2023 3 4) []) 2023 _ _ _ _)
                Days7 1 2023).
  - cbn. constructor; [intros []|constructor].
  - reflexivity.
  - cbn. lia.
  - vm_compute. exact I.
Defined.

(** ** Cascading delete *)

Lemma substring_all (s : string) : substring 0 (String.length s) s = s.
Proof. induction s as [|c s IH]; cbn; [reflexivity|now rewrite IH]. Qed.

Lemma after_prefix_uploads (f : string) :
  after_prefix (uploads_prefix ++ f)%string = f.
Proof. unfold after_prefix. cbn. rewrite Nat.sub_0_r. apply substring_all. Qed.

Lemma prefix_uploads (f : string) :
  prefix uploads_prefix (uploads_prefix ++ f)%string = true.
Proof. cbn. now destruct f. Qed.

Lemma file_exists_In (name : string) (fs : list string) :
  file_exists name fs = true <-> In name fs.
Proof.
  unfold file_exists. rewrite existsb_exists. split.
  - intros [x [Hin Heq]]. apply String.eqb_eq in Heq. now subst.
  - intros Hin. exists name. split; [assumption|apply String.eqb_refl].
Qed.

Lemma unlink_In (name g : string) (fs : list string) :
  In g (unlink name fs) <-> In g fs /\ g <> name.
Proof.
  unfold unlink. rewrite filter_In, negb_true_iff, String.eqb_neq.
  split; intros [H1 H2]; split; trivial; congruence.
Qed.

Lemma safe_remove_file_keeps (E : Env) (path : option string)
  (fs : list string) (g : string) :
  In g (_safe_remove_file E path fs) -> In g fs.
Proof.
  unfold _safe_remove_file. destruct path as [path|]; [|trivial].
  destruct (path =? "")%string; [trivial|].
  destruct (prefix uploads_prefix path); [|trivial].
  destruct (file_exists (after_prefix path) fs); [|trivial].
  destruct (unlink_raises E (after_prefix path)); [trivial|].
  intros H. now apply unlink_In in H.
Qed.

Lemma safe_remove_file_removes (E : Env) (f : string) (fs : list string) :
  unlink_raises E f = false ->
  ~ In f (_safe_remove_file E (Some (uploads_prefix ++ f)%string) fs).
Proof.
  intros Hok. unfold _safe_remove_file.
  replace ((uploads_prefix ++ f)%string =? "")%string with false by reflexivity.
  rewrite prefix_uploads, after_prefix_uploads, Hok.
  destruct (file_exists f fs) eqn:Hex.
  - intros H. apply unlink_In in H. now destruct H.
  - intros H. apply file_exists_In in H. congruence.
Qed.

Lemma delete_pets_spec (E : Env) (selected : list Pet) :
  forall table fs,
    (forall x, In x (fst (delete_pets E selected table fs)) ->
               In x table /\
               forall s, In s selected -> pet_id x <> pet_id s) /\
    (forall g, In g (snd (delete_pets E selected table fs)) -> In g fs) /\
    (forall s f, In s selected ->
                 photo_path s = Some (uploads_prefix ++ f)%string ->
                 unlink_raises E f = false ->
                 ~ In f (snd (delete_pets E selected table fs))).
Proof.
  induction selected as [|pet rest IH]; intros table fs; cbn [delete_pets].
  - cbn. repeat split; trivial; intros; contradiction.
  - destruct (IH (filter (fun x => negb (pet_id x =? pet_id pet)) table)
                 (_safe_remove_file E (photo_path pet) fs))
      as [Hrows [Hkeep Hgone]].
    split; [|split].
    + intros x Hin. destruct (Hrows x Hin) as [Hf Hne].
      apply filter_In in Hf. destruct Hf as [Hx Hid].
      split; [assumption|]. intros s [<-|Hs]; [|now apply Hne].
      apply negb_true_iff in Hid. now apply Z.eqb_neq.
    + intros g Hin. apply Hkeep in Hin.
      now apply safe_remove_file_keeps in Hin.
    + intros s f [<-|Hs] Hpath Hok; [|now apply (Hgone s)].
      intros Hin. apply Hkeep in Hin. rewrite Hpath in Hin.
      now apply (safe_remove_file_removes E f fs Hok).
Qed.

Lemma delete_children_spec (selected : list Child) :
  forall table x,
    In x (delete_children selected table) ->
    In x table /\ forall s, In s selected -> child_id x <> child_id s.
Proof.
  induction selected as [|c rest IH]; intros table x; cbn [delete_children].
  - intros H. split; [assumption|]. intros s [].
  - intros H. apply IH in H. destruct H as [Hf Hne].
    apply filter_In in Hf. destruct Hf as [Hx Hid].
    split; [assumption|]. intros s [<-|Hs]; [|now apply Hne].
    apply negb_true_iff in Hid. now apply Z.eqb_neq.
Qed.

Lemma delete_notes_spec (selected : list Note) :
  forall table x,
    In x (delete_notes selected table) ->
    In x table /\ forall s, In s selected -> note_id x <> note_id s.
Proof.
  induction selected as [|n rest IH]; intros table x; cbn [delete_notes].
  - intros H. split; [assumption|]. intros s [].
  - intros H. apply IH in H. destruct H as [Hf Hne].
    apply filter_In in Hf. destruct Hf as [Hx Hid].
    split; [assumption|]. intros s [<-|Hs]; [|now apply Hne].
    apply negb_true_iff in Hid. now apply Z.eqb_neq.
Qed.





(** ** The scenarios of the specification, run *)

Example toordinal_2023_03_04 : toordinal (mkdate 2023 3 4) = 738583.
Proof. reflexivity. Qed.

(** A person whose birthday is in seven days: the first scan posts one
    reminder and stores the marker, the second scan of the day posts
    nothing. *)
Example two_scans_one_reminder :
  let E := mkEnv (Some "token"%string) (Some "chat"%string)
             (fun _ => Ok tt) (fun _ => false) in
  let today := mkdate 2023 3 4 in
  let ada := mkPerson 1 (Some "Ada"%string) None (Some 11) (Some 3) None
               None None None in
  _birthday_watcher E [today; today] (mkDB [ada] [] [] []) (mkWorld today [])
  = (mkDB [set_notify_year_7d ada 2023] [] [] [],
     mkWorld today
       [Committed; Committed; Posted today (mkMessage Days7 ada) true]).
Proof. reflexivity. Qed.

(** A request that fails is printed, and the marker is stored all the
    same. *)
Example failed_delivery_still_marks :
  let E := mkEnv (Some "token"%string) (Some "chat"%string)
             (fun _ => Raise (URLError "timed out")) (fun _ => false) in
  let today := mkdate 2023 3 10 in
  let ada := mkPerson 1 (Some "Ada"%string) None (Some 11) (Some 3) None
               None None None in
  _check_birthdays_and_notify E (mkDB [ada] [] [] []) (mkWorld today [])
  = (mkDB [set_notify_year_1d ada 2023] [] [] [],
     mkWorld today
       [Committed; Printed "Telegram send error";
        Posted today (mkMessage Days1 ada) false],
     Ok tt).
Proof. reflexivity. Qed.

(** A birthday already past this year is looked for in the next. *)
Example next_occurrence_next_year :
  next_occurrence (mkdate 2023 12 30) 1 6 = Ok (mkdate 2024 1 6)
  /\ days_between (mkdate 2024 1 6) (mkdate 2023 12 30) = 7.
Proof. split; reflexivity. Qed.

(** * Further properties of the code *)

(** ** The migration of [init_db] *)

Lemma has_column_In (col : string) (cols : list string) :
  has_column col cols = true <-> In col cols.
Proof.
  unfold has_column. rewrite existsb_exists. split.
  - intros [x [Hin Heq]]. apply String.eqb_eq in Heq. now subst.
  - intros Hin. exists col. split; [assumption|apply String.eqb_refl].
Qed.

Lemma distinct_NoDup (names : list string) :
  distinct names = true -> NoDup names.
Proof.
  induction names as [|n rest IH]; cbn; [constructor|].
  rewrite andb_true_iff, negb_true_iff. intros [Hn Hrest].
  constructor; [|now apply IH].
  intros Hin. apply has_column_In in Hin. congruence.
Qed.

Lemma desired_distinct : NoDup (map fst desired).
Proof. apply distinct_NoDup. vm_compute. reflexivity. Qed.

(** The loop appends the wanted columns whose name the table lacked. *)
Lemma add_missing_appends (cols : list string) (wanted : list column) :
  forall schema,
    add_missing cols wanted schema
    = schema ++ filter (fun c => negb (has_column (fst c) cols)) wanted.
Proof.
  induction wanted as [|[col typ] rest IH]; intros schema; cbn.
  - now rewrite app_nil_r.
  - rewrite IH. destruct (has_column col cols); cbn; [reflexivity|].
    now rewrite <- app_assoc.
Qed.

Lemma desired_present (schema : list column) (c : column) :
  In c desired -> has_column (fst c) (table_info (init_db schema)) = true.
Proof.
  intros Hin. apply has_column_In. unfold init_db, table_info.
  rewrite add_missing_appends, map_app, in_app_iff.
  destruct (has_column (fst c) (map fst schema)) eqn:Hhas.
  - left. now apply has_column_In.
  - right. apply in_map. apply filter_In. split; [assumption|].
    unfold table_info. now rewrite Hhas.
Qed.

Lemma filter_nothing {A : Type} (f : A -> bool) (l : list A) :
  (forall x, In x l -> f x = false) -> filter f l = [].
Proof.
  induction l as [|a l IH]; intros H; cbn; [reflexivity|].
  rewrite (H a) by now left. apply IH. intros x Hx. apply H. now right.
Qed.

Lemma NoDup_names_filter (f : column -> bool) (l : list column) :
  NoDup (map fst l) -> NoDup (map fst (filter f l)).
Proof.
  induction l as [|a l IH]; cbn; intros Hnd; [constructor|].
  inversion Hnd as [|? ? Hnotin Hrest]. subst.
  destruct (f a); cbn; [|now apply IH].
  constructor; [|now apply IH].
  intros Hin. apply Hnotin. apply in_map_iff in Hin.
  destruct Hin as [x [Hx Hf]]. apply filter_In in Hf.
  apply in_map_iff. exists x. now split.
Qed.

(** X1: After [init_db] the table has every column of [desired]. *)
Theorem init_db_adds_every_desired_column (schema : list column)
  (col typ : string) :
  In (col, typ) desired ->
  In col (table_info (init_db schema)).
Proof.
  intros Hin. apply has_column_In.
  exact (desired_present schema (col, typ) Hin).
Qed.

Lemma init_db_adds_every_desired_column_witness :
  In "wishlist"%string
     (table_info (init_db [("id", "INTEGER"); ("first_name", "VARCHAR")]%string)).
Proof.
  exact (init_db_adds_every_desired_column
           [("id", "INTEGER"); ("first_name", "VARCHAR")]%string
           "wishlist"%string "TEXT"%string
           ltac:(unfold desired; do 16 right; left; reflexivity)).
Defined.

(** X2: [init_db] never drops, renames, retypes or reorders a column: the old
    table is a prefix of the new one, and what follows are columns of
    [desired], each once, under a name the table did not have, with its
    declared type. *)
Theorem init_db_is_additive (schema : list column) :
  exists added,
    init_db schema = schema ++ added /\
    NoDup (map fst added) /\
    (forall c, In c added ->
               In c desired /\ ~ In (fst c) (table_info schema)).
Proof.
  exists (filter (fun c => negb (has_column (fst c) (table_info schema)))
                 desired).
  split; [exact (add_missing_appends (table_info schema) desired schema)|].
  split; [exact (NoDup_names_filter _ desired desired_distinct)|].
  intros c Hc. apply filter_In in Hc. destruct Hc as [Hin Hnew].
  split; [assumption|]. apply negb_true_iff in Hnew.
  intros Habs. apply has_column_In in Habs. congruence.
Qed.

(** X3: Running [init_db] on a table it has migrated changes nothing. *)
Theorem init_db_idempotent (schema : list column) :
  init_db (init_db schema) = init_db schema.
Proof.
  unfold init_db at 1. rewrite add_missing_appends.
  rewrite filter_nothing; [apply app_nil_r|].
  intros c Hc. now rewrite (desired_present schema c Hc).
Qed.

(** X4: A table whose column names are distinct keeps distinct names. *)
Theorem init_db_keeps_names_distinct (schema : list column) :
  NoDup (table_info schema) -> NoDup (table_info (init_db schema)).
Proof.
  intros Hnd. unfold init_db, table_info.
  rewrite add_missing_appends, map_app.
  apply NoDup_app; [assumption| |].
  - exact (NoDup_names_filter _ desired desired_distinct).
  - intros name Hold Hnew. apply in_map_iff in Hnew.
    destruct Hnew as [c [<- Hc]]. apply filter_In in Hc.
    destruct Hc as [_ Hc]. apply negb_true_iff in Hc.
    apply has_column_In in Hold. unfold table_info in Hc.
    exact (eq_true_false_abs _ Hold Hc).
Qed.

Lemma init_db_keeps_names_distinct_witness :
  NoDup (table_info
           (init_db [("id", "INTEGER"); ("wishlist", "TEXT")]%string)).
Proof.
  exact (init_db_keeps_names_distinct
           [("id", "INTEGER"); ("wishlist", "TEXT")]%string
           (distinct_NoDup ["id"; "wishlist"]%string eq_refl)).
Defined.

(** ** File removal and the delete handlers *)

Lemma safe_remove_file_lost (E : Env) (path : option string)
  (fs : list string) (g : string) :
  In g fs -> ~ In g (_safe_remove_file E path fs) ->
  refers_to path g /\ unlink_raises E g = false.
Proof.
  unfold _safe_remove_file, refers_to. intros Hin Hlost.
  destruct path as [name|]; [|contradiction].
  destruct (name =? "")%string; [contradiction|].
  destruct (prefix uploads_prefix name) eqn:Hpre; [|contradiction].
  destruct (file_exists (after_prefix name) fs); [|contradiction].
  destruct (unlink_raises E (after_prefix name)) eqn:Hraise; [contradiction|].
  destruct (string_dec g (after_prefix name)) as [->|Hne].
  - split; [|assumption]. now exists name.
  - exfalso. apply Hlost. now apply unlink_In.
Qed.

(** X5: [_safe_remove_file] never adds a file, and the only file it can remove
    is the one the path refers to under [/uploads/], when the file system
    performs the removal; with no path, an empty path or a path outside
    [/uploads/] the directory is left as it is. *)
Theorem safe_remove_file_only_target (E : Env) (path : option string)
  (fs : list string) :
  (forall g, In g (_safe_remove_file E path fs) -> In g fs) /\
  (forall g, In g fs -> ~ In g (_safe_remove_file E path fs) ->
             refers_to path g /\ unlink_raises E g = false) /\
  ((path = None \/ path = Some ""%string \/
    exists name, path = Some name /\ prefix uploads_prefix name = false) ->
   _safe_remove_file E path fs = fs).
Proof.
  split; [|split].
  - intros g. apply safe_remove_file_keeps.
  - intros g. apply safe_remove_file_lost.
  - intros [->|[->|[name [-> Hpre]]]]; try reflexivity.
    unfold _safe_remove_file. rewrite Hpre. now destruct (name =? "")%string.
Qed.

Lemma delete_pets_lost (E : Env) (selected : list Pet) :
  forall table fs g,
    In g fs -> ~ In g (snd (delete_pets E selected table fs)) ->
    exists s, In s selected /\ refers_to (photo_path s) g.
Proof.
  induction selected as [|pet rest IH]; intros table fs g Hin Hlost;
    cbn [delete_pets] in Hlost; [contradiction|].
  destruct (in_dec string_dec g (_safe_remove_file E (photo_path pet) fs))
    as [Hkept|Hgone].
  - destruct (IH _ _ g Hkept Hlost) as [s [Hs Href]].
    exists s. split; [now right|assumption].
  - exists pet. split; [now left|].
    now destruct (safe_remove_file_lost E _ fs g Hin Hgone).
Qed.

Lemma delete_pets_keeps (E : Env) (selected : list Pet) :
  forall table fs x,
    In x table -> (forall s, In s selected -> pet_id x <> pet_id s) ->
    In x (fst (delete_pets E selected table fs)).
Proof.
  induction selected as [|pet rest IH]; intros table fs x Hin Hne;
    cbn [delete_pets]; [assumption|].
  apply IH.
  - apply filter_In. split; [assumption|].
    apply negb_true_iff, Z.eqb_neq, Hne. now left.
  - intros s Hs. apply Hne. now right.
Qed.

Lemma delete_children_keeps (selected : list Child) :
  forall table x,
    In x table -> (forall s, In s selected -> child_id x <> child_id s) ->
    In x (delete_children selected table).
Proof.
  induction selected as [|c rest IH]; intros table x Hin Hne;
    cbn [delete_children]; [assumption|].
  apply IH.
  - apply filter_In. split; [assumption|].
    apply negb_true_iff, Z.eqb_neq, Hne. now left.
  - intros s Hs. apply Hne. now right.
Qed.

Lemma delete_notes_keeps (selected : list Note) :
  forall table x,
    In x table -> (forall s, In s selected -> note_id x <> note_id s) ->
    In x (delete_notes selected table).
Proof.
  induction selected as [|c rest IH]; intros table x Hin Hne;
    cbn [delete_notes]; [assumption|].
  apply IH.
  - apply filter_In. split; [assumption|].
    apply negb_true_iff, Z.eqb_neq, Hne. now left.
  - intros s Hs. apply Hne. now right.
Qed.

(** Rows with distinct keys: equal keys, equal rows. *)
Lemma key_unique {A : Type} (key : A -> Z) (rows : list A) (x y : A) :
  NoDup (map key rows) -> In x rows -> In y rows -> key x = key y -> x = y.
Proof.
  induction rows as [|a rest IH]; cbn; [tauto|].
  intros Hnd [Hx|Hx] [Hy|Hy] Heq.
  - congruence.
  - subst a. inversion Hnd as [|? ? Hnotin _]. exfalso. apply Hnotin.
    rewrite Heq. now apply in_map.
  - subst a. inversion Hnd as [|? ? Hnotin _]. exfalso. apply Hnotin.
    rewrite <- Heq. now apply in_map.
  - inversion Hnd. now apply IH.
Qed.

(** X6: With distinct ids in each table, [person_delete] keeps every other
    person and every pet, child and note of the others; and a file that
    disappears from the uploads directory is the avatar of the deleted
    person or the photo of one of that person's pets. *)
Theorem person_delete_spares_the_others (E : Env) (pid : Z) (db : DB)
  (fs : list string) :
  NoDup (map pet_id (pets db)) ->
  NoDup (map child_id (children db)) ->
  NoDup (map note_id (notes db)) ->
  let '(db', fs', _) := person_delete E pid db fs in
  (forall q, In q (persons db) -> id q <> pid -> In q (persons db')) /\
  (forall x, In x (pets db) -> pet_person_id x <> pid -> In x (pets db')) /\
  (forall x, In x (children db) -> child_person_id x <> pid ->
             In x (children db')) /\
  (forall x, In x (notes db) -> note_person_id x <> pid -> In x (notes db')) /\
  (forall g, In g fs -> ~ In g fs' ->
     (exists p, get_person db pid = Some p /\ refers_to (avatar_path p) g) \/
     (exists x, In x (pets db) /\ pet_person_id x = pid /\
                refers_to (photo_path x) g)).
Proof.
  intros Hpets Hchildren Hnotes. unfold person_delete.
  destruct (get_person db pid) as [p|] eqn:Hget.
  2: { repeat split; trivial. intros g Hin Hout. contradiction. }
  set (selected := filter (fun x => pet_person_id x =? pid) (pets db)).
  pose proof (delete_pets_keeps E selected (pets db) fs) as Hkeep.
  pose proof (delete_pets_lost E selected (pets db) fs) as Hlost.
  destruct (delete_pets E selected (pets db) fs) as [pets' fs1].
  cbn [fst snd] in Hkeep, Hlost. cbn [persons pets children notes].
  assert (Hid : id p = pid).
  { unfold get_person in Hget. apply find_some in Hget.
    now apply Z.eqb_eq. }
  split; [|split; [|split; [|split]]].
  - intros q Hq Hne. apply filter_In. split; [assumption|].
    apply negb_true_iff, Z.eqb_neq. congruence.
  - intros x Hx Hne. apply Hkeep; [assumption|].
    intros s Hs Heq. apply filter_In in Hs. destruct Hs as [Hs Hpid].
    apply Z.eqb_eq in Hpid.
    assert (x = s) by (apply (key_unique pet_id (pets db)); assumption).
    congruence.
  - intros x Hx Hne. apply delete_children_keeps; [assumption|].
    intros s Hs Heq. apply filter_In in Hs. destruct Hs as [Hs Hpid].
    apply Z.eqb_eq in Hpid.
    assert (x = s) by (apply (key_unique child_id (children db)); assumption).
    congruence.
  - intros x Hx Hne. apply delete_notes_keeps; [assumption|].
    intros s Hs Heq. apply filter_In in Hs. destruct Hs as [Hs Hpid].
    apply Z.eqb_eq in Hpid.
    assert (x = s) by (apply (key_unique note_id (notes db)); assumption).
    congruence.
  - intros g Hin Hout.
    destruct (in_dec string_dec g fs1) as [Hkept|Hgone].
    + left. exists p. split; [reflexivity|].
      now destruct (safe_remove_file_lost E _ fs1 g Hkept Hout).
    + right. destruct (Hlost g Hin Hgone) as [s [Hs Href]].
      apply filter_In in Hs. destruct Hs as [Hs Hpid].
      exists s. repeat split; trivial. now apply Z.eqb_eq.
Qed.

Lemma person_delete_spares_the_others_witness :
  let E := mkEnv None None (fun _ => Ok tt) (fun _ => false) in
  let ada := mkPerson 1 (Some "Ada"%string) None None None None
               (Some "/uploads/ada.png"%string) None None in
  let bob := mkPerson 2 (Some "Bob"%string) None None None None None None None in
  let tom := mkPet 2 2 "Tom" (Some "/uploads/tom.jpg"%string) in
  let db := mkDB [ada; bob]
              [mkPet 1 1 "Rex" (Some "/uploads/rex.jpg"%string); tom]
              [] [mkNote 1 2 "likes tea"] in
  In tom (pets (fst (fst (person_delete E 1 db ["rex.jpg"; "tom.jpg"]%string)))).
Proof.
  cbv zeta.
  pose proof (person_delete_spares_the_others
                (mkEnv None None (fun _ => Ok tt) (fun _ => false)) 1
                (mkDB [mkPerson 1 (Some "Ada"%string) None None None None
                         (Some "/uploads/ada.png"%string) None None;
                       mkPerson 2 (Some "Bob"%string) None None None None
                         None None None]
                   [mkPet 1 1 "Rex" (Some "/uploads/rex.jpg"%string);
                    mkPet 2 2 "Tom" (Some "/uploads/tom.jpg"%string)]
                   [] [mkNote 1 2 "likes tea"])
                ["rex.jpg"; "tom.jpg"]%string
                ltac:(repeat constructor; cbn; intuition discriminate)
                ltac:(constructor)
                ltac:(repeat constructor; cbn; intuition discriminate)) as H.
  cbv beta iota in H.
  apply (proj1 (proj2 H)); [right; left; reflexivity|discriminate].
Defined.




(** X9: The delete handlers keep the references whole: when every pet, child
    and note references a stored person, the same holds after
    [person_delete], after [pet_delete] and after [child_delete]. *)
Theorem delete_handlers_keep_integrity (E : Env) (k : Z) (db : DB)
  (fs : list string) :
  integrity db ->
  integrity (fst (fst (person_delete E k db fs))) /\
  integrity (fst (fst (pet_delete E k db fs))) /\
  integrity (fst (child_delete k db)).
Proof.
  intros [Hpets [Hchildren Hnotes]]. split; [|split].
  - unfold person_delete.
    destruct (get_person db k) as [p|] eqn:Hget; [|now repeat split].
    set (selected := filter (fun x => pet_person_id x =? k) (pets db)).
    destruct (delete_pets_spec E selected (pets db) fs) as [Hrows _].
    destruct (delete_pets E selected (pets db) fs) as [pets' fs1].
    cbn [fst snd] in *.
    assert (Hid : id p = k).
    { unfold get_person in Hget. apply find_some in Hget.
      now apply Z.eqb_eq. }
    assert (Hstay : forall pid, pid <> k -> owned db pid ->
              owned (mkDB (filter (fun x => negb (id x =? id p)) (persons db))
                       pets'
                       (delete_children
                          (filter (fun x => child_person_id x =? k)
                             (children db)) (children db))
                       (delete_notes
                          (filter (fun x => note_person_id x =? k) (notes db))
                          (notes db))) pid).
    { intros pid Hne [q [Hq Hqid]]. exists q. split; [|assumption].
      cbn [persons]. apply filter_In. split; [assumption|].
      apply negb_true_iff, Z.eqb_neq. congruence. }
    repeat split; cbn [pets children notes].
    + intros x Hx. destruct (Hrows x Hx) as [Hx0 Hne].
      apply Hstay; [|now apply Hpets].
      intros Heq. apply (Hne x); [|reflexivity].
      apply filter_In. split; [assumption|now apply Z.eqb_eq].
    + intros x Hx. apply delete_children_spec in Hx.
      destruct Hx as [Hx0 Hne].
      apply Hstay; [|now apply Hchildren].
      intros Heq. apply (Hne x); [|reflexivity].
      apply filter_In. split; [assumption|now apply Z.eqb_eq].
    + intros x Hx. apply delete_notes_spec in Hx.
      destruct Hx as [Hx0 Hne].
      apply Hstay; [|now apply Hnotes].
      intros Heq. apply (Hne x); [|reflexivity].
      apply filter_In. split; [assumption|now apply Z.eqb_eq].
  - unfold pet_delete.
    destruct (get_pet db k) as [pet|]; [|now repeat split].
    cbn [fst]. repeat split; cbn [pets children notes]; unfold owned in *;
      cbn [persons]; auto.
    intros x Hx. apply filter_In in Hx. now apply Hpets.
  - unfold child_delete.
    destruct (get_child db k) as [c|]; [|now repeat split].
    cbn [fst]. repeat split; cbn [pets children notes]; unfold owned in *;
      cbn [persons]; auto.
    intros x Hx. apply filter_In in Hx. now apply Hchildren.
Qed.

Lemma delete_handlers_keep_integrity_witness :
  let E := mkEnv None None (fun _ => Ok tt) (fun _ => false) in
  let ada := mkPerson 1 (Some "Ada"%string) None None None None None None None in
  let bob := mkPerson 2 (Some "Bob"%string) None None None None None None None in
  let db := mkDB [ada; bob]
              [mkPet 1 1 "Rex" None; mkPet 2 2 "Tom" None]
              [mkChild 1 2 "Sam"] [mkNote 1 1 "likes tea"] in
  integrity (fst (fst (person_delete E 1 db []))).
Proof.
  cbv zeta.
  refine (proj1 (delete_handlers_keep_integrity
                   (mkEnv None None (fun _ => Ok tt) (fun _ => false)) 1
                   (mkDB [mkPerson 1 (Some "Ada"%string) None None None None
                            None None None;
                          mkPerson 2 (Some "Bob"%string) None None None None
                            None None None]
                      [mkPet 1 1 "Rex" None; mkPet 2 2 "Tom" None]
                      [mkChild 1 2 "Sam"] [mkNote 1 1 "likes tea"])
                   [] _)).
  unfold integrity, owned. cbn.
  repeat split; intros x Hx;
    repeat (destruct Hx as [<-|Hx];
            [first
               [ exists (mkPerson 1 (Some "Ada"%string) None None None None
                           None None None);
                 split; [cbn; tauto|reflexivity]
               | exists (mkPerson 2 (Some "Bob"%string) None None None None
                           None None None);
                 split; [cbn; tauto|reflexivity] ]|]);
    contradiction.
Defined.

(** ** What a scan leaves alone *)

Lemma updated_same_but_markers (today : date) (p : Person) :
  same_but_markers (year today) p (updated today p).
Proof.
  unfold same_but_markers, updated.
  destruct (due Days7 today p); rewrite ?due_stamped_7d;
    destruct (due Days1 today p); cbn;
    repeat split; trivial; intros [|]; cbn; auto.
Qed.

Lemma same_but_markers_refl (y : Z) (p : Person) : same_but_markers y p p.
Proof. unfold same_but_markers. repeat split; trivial. intros k. now left. Qed.

(** X10: A scan, completed or not, changes nothing but notification markers:
    the pets, children and notes are the same, the persons are the same
    rows in the same order with the same id, names, birth date and avatar,
    and a marker that changed is the current year. *)
Theorem scan_changes_markers_only (E : Env) (db : DB) (w : world) :
  let '(db', w', _) := _check_birthdays_and_notify E db w in
  pets db' = pets db /\ children db' = children db /\
  notes db' = notes db /\
  Forall2 (same_but_markers (year (w_today w))) (persons db) (persons db') /\
  w_today w' = w_today w.
Proof.
  unfold _check_birthdays_and_notify.
  destruct (for_each_person_spec E (w_today w) (persons db) w eq_refl)
    as [w' [Hf [Hd _]]].
  rewrite Hf.
  destruct (rows_after (w_today w) (persons db)) as [rows|e] eqn:Hrows.
  - cbn [persons pets children notes record w_today].
    repeat split; trivial.
    rewrite (rows_after_Ok _ _ _ Hrows).
    induction (persons db) as [|p rest IH] in |- *; cbn; constructor;
      [apply updated_same_but_markers|assumption].
  - repeat split; trivial.
    induction (persons db) as [|p rest IH] in |- *; constructor;
      [apply same_but_markers_refl|assumption].
Qed.

(** ** The second scan of a day *)

Lemma updated_guard (today : date) (p : Person) :
  skipped (updated today p) = skipped p /\
  birth_day (updated today p) = birth_day p /\
  birth_month (updated today p) = birth_month p.
Proof.
  unfold updated. destruct (due Days7 today p); rewrite ?due_stamped_7d;
    destruct (due Days1 today p); now repeat split.
Qed.

Lemma due_ext (k : kind) (today : date) (p q : Person) :
  birth_day q = birth_day p -> birth_month q = birth_month p ->
  marker k q = marker k p -> due k today q = due k today p.
Proof.
  intros Hd Hm Hk. unfold due, skipped. now rewrite Hd, Hm, Hk.
Qed.

Lemma due_after_update (k : kind) (today : date) (p : Person) :
  due k today (updated today p) = false.
Proof.
  destruct (due k today p) eqn:Hdue.
  - apply due_marked. now rewrite marker_updated, Hdue.
  - rewrite <- Hdue. destruct (updated_guard today p) as [_ [Hd Hm]].
    apply due_ext; trivial. now rewrite marker_updated, Hdue.
Qed.

Lemma person_outcome_Ok_inv (today : date) (p q : Person) :
  person_outcome today p = Ok q ->
  skipped p = true \/
  exists d m bday, birth_day p = Some d /\ birth_month p = Some m /\
                   next_occurrence today m d = Ok bday.
Proof.
  unfold person_outcome. destruct (skipped p) eqn:Hskip; [now left|].
  destruct (skipped_false p Hskip) as [d [m [Hd [Hm _]]]].
  rewrite Hd, Hm.
  destruct (next_occurrence today m d) as [bday|e] eqn:Hnext;
    [|discriminate].
  intros _. right. now exists d, m, bday.
Qed.

(** A row for which no reminder is due passes the loop body without a
    trace. *)
Lemma check_person_quiet (E : Env) (today : date) (p q : Person) (w : world) :
  due Days7 today p = false -> due Days1 today p = false ->
  person_outcome today p = Ok q ->
  check_person E today p w = (w, Ok p).
Proof.
  intros H7 H1 Hout. unfold check_person.
  destruct (skipped p) eqn:Hskip; [reflexivity|].
  destruct (person_outcome_Ok_inv today p q Hout)
    as [Hs|[d [m [bday [Hd [Hm Hnext]]]]]]; [congruence|].
  rewrite Hd, Hm. unfold remind. cbv zeta.
  rewrite (mbind_Ok _ _ w w bday) by (unfold lift; now rewrite Hnext).
  unfold due in H7, H1. rewrite Hd, Hm, Hskip, Hnext in H7, H1.
  cbn [negb andb marker days_of] in H7, H1.
  rewrite H7. rewrite (mbind_Ok _ _ w w p) by reflexivity.
  rewrite H1. rewrite (mbind_Ok _ _ w w p) by reflexivity.
  reflexivity.
Qed.

Lemma for_each_person_quiet (E : Env) (today : date) (people : list Person) :
  forall rows w,
    rows_after today people = Ok rows ->
    for_each_person E today (map (updated today) people) w
    = (w, Ok (map (updated today) people)).
Proof.
  induction people as [|p rest IH]; intros rows w Hrows; [reflexivity|].
  cbn [rows_after] in Hrows.
  destruct (person_outcome today p) as [q|e] eqn:Hp; [|discriminate].
  cbn [bind] in Hrows.
  destruct (rows_after today rest) as [rest'|e] eqn:Hrest; [|discriminate].
  cbn [map for_each_person].
  assert (Hq : exists q', person_outcome today (updated today p) = Ok q').
  { destruct (updated_guard today p) as [Hs [Hd Hm]].
    unfold person_outcome. rewrite Hs, Hd, Hm.
    destruct (person_outcome_Ok_inv today p q Hp)
      as [Hskip|[d [m [bday [Hd' [Hm' Hnext]]]]]].
    - rewrite Hskip. now eexists.
    - destruct (skipped p); [now eexists|].
      rewrite Hd', Hm', Hnext. now eexists. }
  destruct Hq as [q' Hq].
  rewrite (mbind_Ok _ _ w w (updated today p))
    by (apply (check_person_quiet E today _ q');
        trivial; apply due_after_update).
  rewrite (mbind_Ok _ _ w w (map (updated today) rest))
    by (apply (IH rest'); reflexivity).
  reflexivity.
Qed.

(** X11: After a scan that completed, another scan on the same calendar day,
    under any network and configuration, makes no request and prints
    nothing: it only commits, and stores the rows as they were. *)
Theorem second_scan_same_day_is_silent (E E' : Env) (db db1 : DB)
  (w w1 w2 : world) (u : unit) :
  _check_birthdays_and_notify E db w = (db1, w1, Ok u) ->
  w_today w2 = w_today w ->
  _check_birthdays_and_notify E' db1 w2 = (db1, record Committed w2, Ok tt).
Proof.
  unfold _check_birthdays_and_notify. intros Hscan Hday.
  destruct (for_each_person_spec E (w_today w) (persons db) w eq_refl)
    as [w' [Hf _]].
  rewrite Hf in Hscan.
  destruct (rows_after (w_today w) (persons db)) as [rows|e] eqn:Hrows;
    [|discriminate].
  injection Hscan as <- _. cbn [persons pets children notes].
  rewrite (rows_after_Ok _ _ _ Hrows), Hday.
  now rewrite (for_each_person_quiet E' (w_today w) (persons db) rows w2 Hrows).
Qed.

Lemma second_scan_same_day_is_silent_witness :
  let E := mkEnv (Some "token"%string) (Some "chat"%string)
             (fun _ => Ok tt) (fun _ => false) in
  let today := mkdate 2023 3 4 in
  let ada := mkPerson 1 (Some "Ada"%string) None (Some 11) (Some 3) None
               None None None in
  let db1 := mkDB [set_notify_year_7d ada 2023] [] [] [] in
  _check_birthdays_and_notify E db1 (mkWorld today [])
  = (db1, mkWorld today [Committed], Ok tt).
Proof.
  cbv zeta.
  exact (second_scan_same_day_is_silent
           (mkEnv (Some "token"%string) (Some "chat"%string)
              (fun _ => Ok tt) (fun _ => false))
           (mkEnv (Some "token"%string) (Some "chat"%string)
              (fun _ => Ok tt) (fun _ => false))
           (mkDB [mkPerson 1 (Some "Ada"%string) None (Some 11) (Some 3) None
                    None None None] [] [] [])
           _ (mkWorld (mkdate 2023 3 4) []) _ (mkWorld (mkdate 2023 3 4) [])
           tt eq_refl eq_refl).
Defined.

(** ** How many requests a scan makes *)

Lemma posts_made_record (ev : event) (w : world) :
  posts_made (record ev w)
  = Nat.add (if is_post ev then 1%nat else 0%nat) (posts_made w).
Proof. unfold posts_made, record. cbn. now destruct (is_post ev). Qed.

Lemma send_telegram_posts (E : Env) (text : message) (w : world) :
  posts_made (fst (_send_telegram E text w))
  = Nat.add (if configured E then 1%nat else 0%nat) (posts_made w).
Proof.
  unfold _send_telegram. destruct (configured E); cbn [negb]; [|reflexivity].
  unfold try_except, http_post, print.
  destruct (urlopen E (posts_made w)); cbn [fst];
    now rewrite ?posts_made_record.
Qed.

Lemma reminder_block_posts (E : Env) (c : bool) (text : message)
  (p q : Person) (w : world) :
  posts_made
    (fst ((if c then (_ <~ _send_telegram E text ;; ret q) else ret p) w))
  = Nat.add (if c && configured E then 1%nat else 0%nat) (posts_made w).
Proof.
  destruct c; [|reflexivity]. cbn [andb].
  destruct (send_telegram_spec E text w) as [w' [Hs _]].
  rewrite (mbind_Ok _ _ _ _ _ Hs). unfold ret. cbn [fst].
  rewrite <- (send_telegram_posts E text w). now rewrite Hs.
Qed.

(** The loop body makes one request when a reminder is due and the
    credentials are set, and none otherwise; the two reminders are never
    due together. *)
Lemma check_person_posts (E : Env) (today : date) (p : Person) (w : world) :
  (due Days7 today p && due Days1 today p = false) /\
  posts_made (fst (check_person E today p w))
  = Nat.add (if configured E && (due Days7 today p || due Days1 today p)
             then 1%nat else 0%nat)
            (posts_made w).
Proof.
  unfold check_person.
  destruct (skipped p) eqn:Hskip.
  - rewrite (due_skipped Days7 today p Hskip),
            (due_skipped Days1 today p Hskip).
    cbn [andb orb]. rewrite andb_false_r. now split.
  - destruct (skipped_false p Hskip) as [d [m [Hd [Hm _]]]].
    rewrite Hd, Hm. unfold remind, due. cbv zeta.
    rewrite Hd, Hm, Hskip. cbn [negb andb marker days_of].
    destruct (next_occurrence today m d) as [bday|e] eqn:Hnext.
    2: { rewrite (mbind_Raise _ _ w w e) by reflexivity.
         cbn [andb orb fst]. rewrite andb_false_r. now split. }
    rewrite (mbind_Ok _ _ w w bday) by reflexivity. cbv beta.
    set (c7 := (days_between bday today =? 7)
               && opt_neqb (notify_year_7d p) (year today)).
    destruct (reminder_block E c7 (mkMessage Days7 p) p
                (set_notify_year_7d p (year today)) w)
      as [w1 [Hb1 _]].
    pose proof (reminder_block_posts E c7 (mkMessage Days7 p) p
                  (set_notify_year_7d p (year today)) w) as Hp1.
    rewrite Hb1 in Hp1. cbn [fst] in Hp1.
    rewrite (mbind_Ok _ _ _ _ _ Hb1).
    set (p1 := if c7 then set_notify_year_7d p (year today) else p) in *.
    assert (Hsame : notify_year_1d p1 = notify_year_1d p)
      by (unfold p1; now destruct c7).
    rewrite Hsame.
    set (c1 := (days_between bday today =? 1)
               && opt_neqb (notify_year_1d p) (year today)).
    destruct (reminder_block E c1 (mkMessage Days1 p1) p1
                (set_notify_year_1d p1 (year today)) w1)
      as [w2 [Hb2 _]].
    pose proof (reminder_block_posts E c1 (mkMessage Days1 p1) p1
                  (set_notify_year_1d p1 (year today)) w1) as Hp2.
    rewrite Hb2 in Hp2. cbn [fst] in Hp2.
    rewrite (mbind_Ok _ _ _ _ _ Hb2). unfold ret. cbn [fst].
    rewrite Hp2, Hp1.
    assert (Hex : c7 && c1 = false).
    { unfold c7, c1.
      destruct (Z.eqb_spec (days_between bday today) 7) as [->|]; cbn;
        [|reflexivity].
      now rewrite andb_false_r. }
    split; [exact Hex|].
    destruct c7, c1, (configured E); cbn in *; try reflexivity;
      discriminate.
Qed.

Lemma check_person_day (E : Env) (today : date) (p : Person) (w : world) :
  w_today w = today -> w_today (fst (check_person E today p w)) = today.
Proof.
  intros Hday.
  destruct (check_person_spec E today p w Hday)
    as [[e [Hc _]]|[w' [Hc [_ [Hd _]]]]]; now rewrite Hc.
Qed.

Lemma for_each_person_posts (E : Env) (today : date) (people : list Person) :
  forall w, w_today w = today ->
    (posts_made (fst (for_each_person E today people w))
     <= posts_made w + List.length people)%nat /\
    (configured E = false ->
     posts_made (fst (for_each_person E today people w)) = posts_made w).
Proof.
  induction people as [|p rest IH]; intros w Hday.
  - cbn. split; [lia|reflexivity].
  - cbn [for_each_person List.length].
    destruct (check_person_posts E today p w) as [_ Hp].
    pose proof (check_person_day E today p w Hday) as Hd1.
    destruct (check_person E today p w) as [w1 [p'|e]] eqn:Hc;
      cbn [fst] in Hp, Hd1.
    + rewrite (mbind_Ok _ _ _ _ _ Hc).
      destruct (IH w1 Hd1) as [Hle Hno].
      destruct (for_each_person E today rest w1) as [w2 [rest'|e]] eqn:Hf;
        cbn [fst] in Hle, Hno.
      * rewrite (mbind_Ok _ _ _ _ _ Hf). unfold ret. cbn [fst].
        split.
        -- rewrite Hp in Hle.
           destruct (configured E && _) in Hle; lia.
        -- intros Hconf. rewrite (Hno Hconf), Hp, Hconf. reflexivity.
      * rewrite (mbind_Raise _ _ _ _ _ Hf). cbn [fst].
        split.
        -- rewrite Hp in Hle.
           destruct (configured E && _) in Hle; lia.
        -- intros Hconf. rewrite (Hno Hconf), Hp, Hconf. reflexivity.
    + rewrite (mbind_Raise _ _ _ _ _ Hc). cbn [fst].
      split.
      * rewrite Hp. destruct (configured E && _); lia.
      * intros Hconf. rewrite Hp, Hconf. reflexivity.
Qed.

(** X12: A scan, completed or not, makes at most one request per stored person:
    the 7-day and the 1-day reminder are never due together; and without
    both credentials it makes no request at all. *)
Theorem scan_requests_bounded (E : Env) (db : DB) (w : world) :
  let '(_, w', _) := _check_birthdays_and_notify E db w in
  (posts_made w' <= posts_made w + List.length (persons db))%nat /\
  (configured E = false -> posts_made w' = posts_made w) /\
  (forall p, due Days7 (w_today w) p && due Days1 (w_today w) p = false).
Proof.
  unfold _check_birthdays_and_notify.
  destruct (for_each_person_posts E (w_today w) (persons db) w eq_refl)
    as [Hle Hno].
  destruct (for_each_person E (w_today w) (persons db) w) as [w' [rows|e]];
    cbn [fst] in Hle, Hno; rewrite ?posts_made_record; cbn [is_post];
    (split; [exact Hle|split; [exact Hno|]]);
    intros p; exact (proj1 (check_person_posts E (w_today w) p w)).
Qed.

(** ** How far ahead the next birthday is *)

Lemma month_cases (m : Z) :
  1 <= m <= 12 ->
  m = 1 \/ m = 2 \/ m = 3 \/ m = 4 \/ m = 5 \/ m = 6 \/
  m = 7 \/ m = 8 \/ m = 9 \/ m = 10 \/ m = 11 \/ m = 12.
Proof. lia. Qed.

Ltac each_month m H :=
  destruct (month_cases m H) as
    [?|[?|[?|[?|[?|[?|[?|[?|[?|[?|[?|?]]]]]]]]]]]; subst m.

Lemma days_before_month_closed (y m : Z) :
  1 <= m <= 12 ->
  days_before_month y m
  = (if m =? 1 then 0 else if m =? 2 then 31 else
     (if m =? 3 then 59 else if m =? 4 then 90 else if m =? 5 then 120 else
      if m =? 6 then 151 else if m =? 7 then 181 else if m =? 8 then 212 else
      if m =? 9 then 243 else if m =? 10 then 273 else if m =? 11 then 304
      else 334) + leap_day y).
Proof.
  intros H. each_month m H; unfold leap_day, days_before_month;
    match goal with
    | |- context [Z.to_nat ?e] =>
        let v := eval vm_compute in (Z.to_nat e) in
        change (Z.to_nat e) with v
    end;
    cbn [days_before_month_nat]; unfold days_in_month;
    destruct (is_leap y); reflexivity.
Qed.

Lemma days_before_year_succ (y : Z) :
  days_before_year (y + 1) = days_before_year y + 365 + leap_day y.
Proof.
  unfold days_before_year, leap_day, is_leap. cbv zeta.
  replace (y + 1 - 1) with y by lia.
  destruct (Z.eqb_spec (y mod 4) 0), (Z.eqb_spec (y mod 100) 0),
    (Z.eqb_spec (y mod 400) 0); cbn [negb andb orb];
    Z.to_euclidean_division_equations; lia.
Qed.

Lemma date_ltb_spec (a b : date) :
  date_ltb a b = true <->
  year a < year b \/
  (year a = year b /\
   (month a < month b \/ (month a = month b /\ day a < day b))).
Proof.
  unfold date_ltb.
  rewrite !orb_true_iff, !andb_true_iff, !orb_true_iff, !andb_true_iff,
    !Z.ltb_lt, !Z.eqb_eq.
  tauto.
Qed.

Lemma days_in_month_closed (y m : Z) :
  days_in_month y m
  = if m =? 2 then 28 + leap_day y
    else if (m =? 4) || (m =? 6) || (m =? 9) || (m =? 11) then 30 else 31.
Proof.
  unfold days_in_month, leap_day.
  destruct (m =? 2); [destruct (is_leap y); reflexivity|reflexivity].
Qed.

Lemma leap_day_range (y : Z) : 0 <= leap_day y <= 1.
Proof. unfold leap_day. destruct (is_leap y); lia. Qed.

Lemma day_of_year_range (y m d : Z) :
  valid_dateb y m d = true -> 1 <= day_of_year y m d <= 365 + leap_day y.
Proof.
  intros Hv. apply valid_dateb_spec in Hv. destruct Hv as [_ [Hm Hd]].
  unfold day_of_year.
  rewrite days_in_month_closed in Hd.
  rewrite days_before_month_closed by assumption.
  pose proof (leap_day_range y).
  each_month m Hm; cbv [Z.eqb Pos.eqb orb] in *; lia.
Qed.

Lemma day_of_year_lt (y m1 d1 m2 d2 : Z) :
  valid_dateb y m1 d1 = true -> valid_dateb y m2 d2 = true ->
  m1 < m2 \/ (m1 = m2 /\ d1 < d2) ->
  day_of_year y m1 d1 < day_of_year y m2 d2.
Proof.
  intros H1 H2 Hlt.
  apply valid_dateb_spec in H1, H2.
  destruct H1 as [_ [Hm1 Hd1]], H2 as [_ [Hm2 Hd2]].
  unfold day_of_year.
  rewrite days_in_month_closed in Hd1, Hd2.
  rewrite !days_before_month_closed by assumption.
  pose proof (leap_day_range y).
  each_month m1 Hm1; each_month m2 Hm2; cbv [Z.eqb Pos.eqb orb] in *; lia.
Qed.

Lemma toordinal_day_of_year (y m d : Z) :
  toordinal (mkdate y m d) = days_before_year y + day_of_year y m d.
Proof. unfold toordinal, day_of_year. cbn. lia. Qed.

Lemma next_year_shift (y m d : Z) :
  1 <= m <= 12 ->
  day_of_year (y + 1) m (clamp_day (y + 1) m d)
  - day_of_year y m (clamp_day y m d) <= 1 - leap_day y.
Proof.
  intros Hm. unfold day_of_year, clamp_day.
  rewrite !days_in_month_closed, !days_before_month_closed by assumption.
  pose proof (leap_day_range y). pose proof (leap_day_range (y + 1)).
  destruct (Z.leb_spec d 0);
    each_month m Hm; cbv [Z.eqb Pos.eqb orb]; lia.
Qed.

(** X13: On a valid calendar day of a year before 9999, the next birthday the
    scan finds is at most 365 days ahead and never behind, and it is zero
    days ahead exactly when it is today. *)
Theorem days_left_in_range (today : date) (m d : Z) (bday : date) :
  valid_dateb (year today) (month today) (day today) = true ->
  year today < MAXYEAR ->
  next_occurrence today m d = Ok bday ->
  0 <= days_between bday today <= 365 /\
  (days_between bday today = 0 <-> bday = today).
Proof.
  destruct today as [ty tm td]. cbn [year month day].
  intros Htoday Hy Hnext.
  unfold next_occurrence in Hnext. cbv zeta in Hnext. cbn [year] in Hnext.
  destruct (_safe_date ty m d) as [b0|e0] eqn:H0; [|discriminate].
  apply safe_date_Ok in H0. destruct H0 as [H1 ->].
  cbn [bind] in Hnext.
  pose proof (clamp_day_valid ty m d H1) as Hv0.
  assert (Hm : 1 <= m <= 12) by (apply valid_dateb_spec in H1; tauto).
  pose proof (day_of_year_range _ _ _ Htoday) as Hrt.
  pose proof (day_of_year_range _ _ _ Hv0) as Hr0.
  pose proof (leap_day_range ty) as Hl.
  unfold days_between.
  destruct (date_ltb (mkdate ty m (clamp_day ty m d)) (mkdate ty tm td))
    eqn:Hlt.
  - apply safe_date_Ok in Hnext. destruct Hnext as [H1' ->].
    pose proof (clamp_day_valid (ty + 1) m d H1') as Hv1.
    pose proof (day_of_year_range _ _ _ Hv1) as Hr1.
    pose proof (next_year_shift ty m d Hm) as Hshift.
    apply date_ltb_spec in Hlt. cbn [year month day] in Hlt.
    assert (Hbefore : day_of_year ty m (clamp_day ty m d)
                      < day_of_year ty tm td).
    { apply day_of_year_lt; trivial. lia. }
    rewrite !toordinal_day_of_year, days_before_year_succ.
    split; [lia|]. split; [lia|].
    intros Heq. apply (f_equal year) in Heq. cbn in Heq. lia.
  - injection Hnext as <-.
    rewrite !toordinal_day_of_year.
    assert (Hnot : ~ (m < tm \/ (m = tm /\ clamp_day ty m d < td))).
    { intros Habs.
      assert (date_ltb (mkdate ty m (clamp_day ty m d)) (mkdate ty tm td)
              = true); [|congruence].
      apply date_ltb_spec. cbn [year month day]. right. now split. }
    destruct (Z.eq_dec m tm) as [->|Hne].
    + destruct (Z.eq_dec (clamp_day ty tm d) td) as [->|Hnd].
      * split; [lia|]. split; [reflexivity|lia].
      * assert (day_of_year ty tm td < day_of_year ty tm (clamp_day ty tm d))
          by (apply day_of_year_lt; trivial; lia).
        split; [lia|]. split; [lia|]. intros [= Heq]. contradiction.
    + assert (day_of_year ty tm td < day_of_year ty m (clamp_day ty m d))
        by (apply day_of_year_lt; trivial; lia).
      split; [lia|]. split; [lia|]. intros [= Heq _]. contradiction.
Qed.

Lemma days_left_in_range_witness :
  0 <= days_between (mkdate 2024 1 6) (mkdate 2023 12 30) <= 365.
Proof.
  exact (proj1 (days_left_in_range (mkdate 2023 12 30) 1 6 (mkdate 2024 1 6)
                  eq_refl ltac:(unfold MAXYEAR; cbn; lia) eq_refl)).
Defined.

(** ** [compose_address] *)

Lemma lstrip_blank (s : str) : blank s -> lstrip s = [].
Proof.
  unfold blank. induction s as [|c rest IH]; cbn; [reflexivity|].
  rewrite andb_true_iff. intros [-> Hrest]. now apply IH.
Qed.

Lemma lstrip_padding (pad s : str) : blank pad -> lstrip (pad ++ s) = lstrip s.
Proof.
  unfold blank. induction pad as [|c rest IH]; cbn; [reflexivity|].
  rewrite andb_true_iff. intros [-> Hrest]. now apply IH.
Qed.

Lemma lstrip_nil_blank (s : str) : lstrip s = [] -> blank s.
Proof.
  unfold blank. induction s as [|c rest IH]; cbn; [reflexivity|].
  destruct (isspace c); [|discriminate]. exact IH.
Qed.

Lemma lstrip_head (c : Z) (rest : str) :
  isspace c = false -> lstrip (c :: rest) = c :: rest.
Proof. cbn. now intros ->. Qed.

(** What is left of [lstrip] is a tail of the text that starts with a
    character that is no whitespace, after whitespace only. *)
Lemma lstrip_split (s : str) :
  exists pad, blank pad /\ s = pad ++ lstrip s /\
              (lstrip s = [] \/
               exists c rest, lstrip s = c :: rest /\ isspace c = false).
Proof.
  induction s as [|c rest IH].
  - exists []. repeat split. now left.
  - cbn [lstrip]. destruct (isspace c) eqn:Hc.
    + destruct IH as [pad [Hpad [Heq Hor]]].
      exists (c :: pad). split; [|split].
      * unfold blank in *. cbn. now rewrite Hc.
      * cbn. now rewrite <- Heq.
      * exact Hor.
    + exists []. repeat split. right. now exists c, rest.
Qed.

Lemma blank_rev (s : str) : blank s -> blank (rev s).
Proof.
  unfold blank. rewrite !forallb_forall. intros H x Hx.
  apply H. now apply in_rev.
Qed.

Lemma blank_app (s t : str) : blank (s ++ t) <-> blank s /\ blank t.
Proof. unfold blank. rewrite forallb_app, andb_true_iff. reflexivity. Qed.

Lemma rstrip_padding (s pad : str) : blank pad -> rstrip (s ++ pad) = rstrip s.
Proof.
  intros Hpad. unfold rstrip. rewrite rev_app_distr.
  now rewrite lstrip_padding by now apply blank_rev.
Qed.

Lemma rstrip_last (front : str) (c : Z) :
  isspace c = false -> rstrip (front ++ [c]) = front ++ [c].
Proof.
  intros Hc. unfold rstrip. rewrite rev_app_distr. cbn [rev app].
  rewrite (lstrip_head _ _ Hc). cbn [rev]. now rewrite rev_involutive.
Qed.

Lemma rstrip_split (s : str) :
  exists pad, blank pad /\ s = rstrip s ++ pad /\
              (rstrip s = [] \/
               exists front c, rstrip s = front ++ [c] /\ isspace c = false).
Proof.
  destruct (lstrip_split (rev s)) as [pad [Hpad [Heq Hor]]].
  exists (rev pad). split; [now apply blank_rev|]. unfold rstrip. split.
  - rewrite <- rev_app_distr, <- Heq. now rewrite rev_involutive.
  - destruct Hor as [->|[c [rest [-> Hc]]]]; [now left|].
    right. exists (rev rest), c. now split.
Qed.

Lemma strip_blank (s : str) : strip s = [] <-> blank s.
Proof.
  unfold strip. split.
  - intros H. apply lstrip_nil_blank in H.
    destruct (rstrip_split s) as [pad [Hpad [Heq _]]].
    rewrite Heq. now apply blank_app.
  - intros H. apply lstrip_blank.
    destruct (rstrip_split s) as [pad [Hpad [Heq _]]].
    rewrite Heq in H. now apply blank_app in H.
Qed.

(** A stripped text is empty or trimmed. *)
Lemma strip_trimmed (s : str) : strip s = [] \/ trimmed (strip s).
Proof.
  unfold strip.
  destruct (lstrip_split (rstrip s)) as [pad [Hpad [Heq Hor]]].
  destruct Hor as [Hnil|[c [rest [Hl Hc]]]]; [now left|].
  right. split; [now exists c, rest|].
  destruct (rstrip_split s) as [_ [_ [_ [Hr|[front [c' [Hr Hc']]]]]]].
  - rewrite Hr in Hl. discriminate.
  - rewrite Hl in Heq |- *. rewrite Hr in Heq.
    assert (Hlast : exists front', c :: rest = front' ++ [c']).
    { clear - Heq. revert front Heq.
      induction pad as [|a pad IH]; intros front Heq; cbn in Heq.
      - exists front. now symmetry.
      - destruct front as [|b front]; cbn in Heq.
        + injection Heq as _ Heq. destruct pad; discriminate.
        + injection Heq as _ Heq. now apply (IH front). }
    destruct Hlast as [front' Hfront']. now exists front', c'.
Qed.

Lemma trimmed_fixed (s : str) : trimmed s -> strip s = s.
Proof.
  intros [[c [rest [Hs Hc]]] [front [c' [Hs' Hc']]]]. unfold strip.
  rewrite Hs' at 1. rewrite (rstrip_last _ _ Hc'), <- Hs', Hs.
  now apply lstrip_head.
Qed.

Lemma trimmed_not_nil (s : str) : trimmed s -> s <> [].
Proof. intros [[c [rest [-> _]]] _]. discriminate. Qed.

Lemma nonblank_Some (s : str) :
  nonblank (Some s) = true <-> strip s <> [].
Proof.
  unfold nonblank. destruct s as [|c rest].
  - cbn. split; [discriminate|]. intros H. now contradiction H.
  - cbn [negb andb]. destruct (strip (c :: rest)).
    + cbn. split; [discriminate|]. intros H. now contradiction H.
    + cbn. split; [discriminate|reflexivity].
Qed.

Lemma nonblank_false (p : option str) :
  nonblank p = false <-> (forall s, p = Some s -> blank s).
Proof.
  destruct p as [s|].
  - destruct (nonblank (Some s)) eqn:Hn.
    + split; [discriminate|]. intros H. apply nonblank_Some in Hn.
      exfalso. apply Hn. apply strip_blank. now apply H.
    + split; [|reflexivity]. intros _ s' [= <-]. apply strip_blank.
      destruct (strip s) eqn:Hs; [reflexivity|].
      assert (nonblank (Some s) = true); [|congruence].
      apply nonblank_Some. rewrite Hs. discriminate.
  - split; [discriminate|reflexivity].
Qed.

Lemma join_trimmed (sep : str) (parts : list str) :
  parts <> [] -> Forall trimmed parts -> trimmed (join sep parts).
Proof.
  intros Hne Hall. destruct parts as [|p rest]; [contradiction|].
  clear Hne. split.
  - inversion Hall as [|? ? [[c [r [-> Hc]]] _] _]. subst.
    destruct rest; cbn; eauto.
  - revert p Hall. induction rest as [|q rest IH]; intros p Hall.
    + inversion Hall as [|? ? [_ Hlast] _]. exact Hlast.
    + inversion Hall as [|? ? _ Hrest]. subst.
      destruct (IH q Hrest) as [front [c [Heq Hc]]].
      change (join sep (p :: q :: rest)) with (p ++ sep ++ join sep (q :: rest)).
      rewrite Heq. exists (p ++ sep ++ front), c.
      split; [now rewrite <- !app_assoc|assumption].
Qed.

(** The parts [compose_address] joins. *)
Lemma address_part_trimmed (s : str) :
  nonblank (Some s) = true -> trimmed (strip s).
Proof.
  intros H. apply nonblank_Some in H.
  destruct (strip_trimmed s); [contradiction|assumption].
Qed.

Lemma apartment_part_trimmed (apt : str) :
  nonblank (Some apt) = true -> trimmed (strip (apartment_marker ++ apt)).
Proof.
  intros H. destruct (strip_trimmed (apartment_marker ++ apt)) as [Hnil|Ht];
    [|assumption].
  exfalso. apply strip_blank, blank_app in Hnil. destruct Hnil as [Hm _].
  discriminate Hm.
Qed.

(** X15: [compose_address] answers [None] exactly when city, address and
    apartment are each absent or made of whitespace only. *)
Theorem compose_address_none_iff (city address apartment : option str) :
  compose_address city address apartment = None <->
  (forall s, city = Some s -> blank s) /\
  (forall s, address = Some s -> blank s) /\
  (forall s, apartment = Some s -> blank s).
Proof.
  rewrite <- !nonblank_false. unfold compose_address. cbn [flat_map].
  destruct city as [c|], address as [a|], apartment as [apt|];
    repeat match goal with
      | |- context [nonblank (Some ?s)] =>
          destruct (nonblank (Some s)) eqn:?
      end;
    cbn [app nonblank];
    try (split; [discriminate|intros [? [? ?]]; discriminate]);
    try (split; [intros _; now repeat split|reflexivity]);
    try (split; [|intros [? [? ?]]; discriminate]);
    try (destruct (strip _); cbn; discriminate).
Qed.

(** X16: An address [compose_address] returns is not empty and neither starts
    nor ends with whitespace: stripping it again changes nothing. *)
Theorem compose_address_is_trimmed (city address apartment : option str)
  (r : str) :
  compose_address city address apartment = Some r ->
  r <> [] /\ strip r = r.
Proof.
  unfold compose_address. cbn [flat_map]. intros H.
  assert (Ht : trimmed r); [|split; [now apply trimmed_not_nil
                                    |now apply trimmed_fixed]].
  set (f := fun p : option str =>
              match p with
              | Some s => if nonblank p then [strip s] else []
              | None => []
              end) in H.
  assert (Hf : forall p, Forall trimmed (f p)).
  { intros [s|]; unfold f; [|constructor].
    destruct (nonblank (Some s)) eqn:Hn; constructor; [|constructor].
    now apply address_part_trimmed. }
  assert (Hparts : Forall trimmed (f city ++ f address ++ []))
    by (rewrite app_nil_r; apply Forall_app; split; apply Hf).
  set (parts := f city ++ f address ++ []) in *.
  assert (Hall : Forall trimmed
            match apartment with
            | Some apt =>
                if nonblank apartment
                then parts ++ [strip (apartment_marker ++ apt)] else parts
            | None => parts
            end).
  { destruct apartment as [apt|]; [|assumption].
    destruct (nonblank (Some apt)) eqn:Hn; [|assumption].
    apply Forall_app. split; [assumption|].
    constructor; [now apply apartment_part_trimmed|constructor]. }
  destruct (match apartment with Some _ => _ | None => _ end) as [|p rest]
    eqn:Hfinal; [discriminate|].
  injection H as Hr. rewrite <- Hr.
  exact (join_trimmed (of_ascii ", ") (p :: rest) ltac:(discriminate) Hall).
Qed.

Lemma compose_address_is_trimmed_witness :
  strip (of_ascii "Metropolis, 1 Main St") = of_ascii "Metropolis, 1 Main St".
Proof.
  exact (proj2 (compose_address_is_trimmed
                  (Some (of_ascii " Metropolis"))
                  (Some (of_ascii "1 Main St  ")) None
                  (of_ascii "Metropolis, 1 Main St") eq_refl)).
Defined.

(** The example of the specification. *)
Example compose_address_metropolis :
  compose_address (Some (of_ascii "Metropolis")) (Some (of_ascii "1 Main St"))
    (Some (of_ascii "4B"))
  = Some (of_ascii "Metropolis, 1 Main St, " ++ apartment_marker
          ++ of_ascii "4B").
Proof. reflexivity. Qed.

Lemma strip_padding (pre s suf : str) :
  blank pre -> blank suf -> strip (pre ++ s ++ suf) = strip s.
Proof.
  intros Hpre Hsuf. unfold strip.
  rewrite app_assoc, (rstrip_padding _ _ Hsuf).
  destruct (rstrip_split s) as [pad [Hpad [Heq [Hnil|[front [c [Hr Hc]]]]]]].
  - rewrite Hnil in *. cbn in Heq. subst s.
    unfold rstrip.
    rewrite (lstrip_blank (rev (pre ++ pad)))
      by (apply blank_rev, blank_app; now split).
    reflexivity.
  - rewrite Hr. rewrite Heq at 1. rewrite Hr, !app_assoc.
    rewrite (rstrip_padding _ _ Hpad), (rstrip_last _ _ Hc).
    rewrite <- app_assoc. now apply lstrip_padding.
Qed.

Lemma nonblank_padding (pre s suf : str) :
  blank pre -> blank suf ->
  nonblank (Some (pre ++ s ++ suf)) = nonblank (Some s).
Proof.
  intros Hpre Hsuf.
  destruct (nonblank (Some s)) eqn:Hs.
  - apply nonblank_Some. rewrite strip_padding by assumption.
    now apply nonblank_Some.
  - apply nonblank_false. intros s' [= <-].
    apply strip_blank. rewrite strip_padding by assumption.
    apply strip_blank. apply (proj1 (nonblank_false (Some s)) Hs).
    reflexivity.
Qed.

Lemma strip_suffix (s suf : str) : blank suf -> strip (s ++ suf) = strip s.
Proof. intros H. exact (strip_padding [] s suf eq_refl H). Qed.

Lemma nonblank_suffix (s suf : str) :
  blank suf -> nonblank (Some (s ++ suf)) = nonblank (Some s).
Proof. intros H. exact (nonblank_padding [] s suf eq_refl H). Qed.

(** X17: Whitespace around the city and around the address, and whitespace
    after the apartment, do not change the composed address. *)
Theorem compose_address_ignores_padding (city address apartment : option str)
  (pre1 suf1 pre2 suf2 suf3 : str) :
  blank pre1 -> blank suf1 -> blank pre2 -> blank suf2 -> blank suf3 ->
  compose_address (option_map (fun s => pre1 ++ s ++ suf1) city)
                  (option_map (fun s => pre2 ++ s ++ suf2) address)
                  (option_map (fun s => s ++ suf3) apartment)
  = compose_address city address apartment.
Proof.
  intros H1 H1' H2 H2' H3.
  destruct city as [c|], address as [a|], apartment as [apt|];
    cbn [option_map]; unfold compose_address; cbn [flat_map];
    rewrite ?nonblank_padding, ?strip_padding by assumption;
    rewrite ?(nonblank_suffix apt suf3 H3),
            ?(app_assoc apartment_marker apt suf3),
            ?(strip_suffix (apartment_marker ++ apt) suf3 H3);
    reflexivity.
Qed.

Lemma compose_address_ignores_padding_witness :
  compose_address (Some (of_ascii "  Metropolis ")) None
                  (Some (of_ascii "4B  "))
  = compose_address (Some (of_ascii "Metropolis")) None (Some (of_ascii "4B")).
Proof.
  exact (compose_address_ignores_padding
           (Some (of_ascii "Metropolis")) None (Some (of_ascii "4B"))
           (of_ascii "  ") (of_ascii " ") [] [] (of_ascii "  ")
           eq_refl eq_refl eq_refl eq_refl eq_refl).
Defined.

(** ** [calc_age] over time *)

Lemma calc_age_Some (today : date) (d m y : option Z) (a : Z) :
  calc_age today d m y = Some a ->
  exists d' m' y',
    d = Some d' /\ m = Some m' /\ y = Some y' /\
    valid_dateb y' m' d' = true /\
    a = year today - y'
        - (if tuple_ltb (month today, day today) (m', d') then 1 else 0).
Proof.
  unfold calc_age.
  destruct (truthy d && truthy m && truthy y); cbn [negb]; [|discriminate].
  destruct d as [d'|], m as [m'|], y as [y'|]; try discriminate.
  destruct (date_new y' m' d') as [bd|e] eqn:Hn; [|discriminate].
  apply date_new_Ok in Hn. destruct Hn as [-> Hv].
  cbn [year month day]. intros [= <-].
  exists d', m', y'. now repeat split.
Qed.

Lemma calc_age_of_valid (today : date) (d m y : Z) :
  valid_dateb y m d = true ->
  calc_age today (Some d) (Some m) (Some y)
  = Some (year today - y
          - (if tuple_ltb (month today, day today) (m, d) then 1 else 0)).
Proof.
  intros Hv. unfold calc_age.
  destruct (truthy (Some d) && truthy (Some m) && truthy (Some y)) eqn:Ht.
  - cbn [negb]. now rewrite (date_new_valid _ _ _ Hv).
  - rewrite (truthy_false_invalid _ _ _ Ht) in Hv. discriminate.
Qed.

Lemma tuple_ltb_spec (a b : Z * Z) :
  tuple_ltb a b = true <->
  fst a < fst b \/ (fst a = fst b /\ snd a < snd b).
Proof.
  unfold tuple_ltb.
  rewrite orb_true_iff, andb_true_iff, !Z.ltb_lt, Z.eqb_eq. tauto.
Qed.

(** X18: For a birth date that is a calendar date and not after today, the age
    is known, not negative and at most the difference of the years; it is
    zero on the day of birth. *)
Theorem calc_age_not_negative (today : date) (d m y : Z) :
  valid_dateb y m d = true ->
  date_leb (mkdate y m d) today = true ->
  exists a,
    calc_age today (Some d) (Some m) (Some y) = Some a /\
    0 <= a <= year today - y /\
    (today = mkdate y m d -> a = 0).
Proof.
  intros Hv Hle. rewrite (calc_age_of_valid today d m y Hv).
  eexists. split; [reflexivity|].
  unfold date_leb in Hle. apply negb_true_iff in Hle.
  assert (Hnot : ~ (year today < y \/
                    (year today = y /\
                     (month today < m \/ (month today = m /\ day today < d)))))
    by (intros Habs; apply (date_ltb_spec today (mkdate y m d)) in Habs;
        congruence).
  destruct (tuple_ltb (month today, day today) (m, d)) eqn:Hlt.
  - apply tuple_ltb_spec in Hlt. cbn [fst snd] in Hlt.
    split; [lia|]. intros ->. cbn in Hlt. lia.
  - split; [lia|]. intros ->. cbn. lia.
Qed.

Lemma calc_age_not_negative_witness :
  exists a,
    calc_age (mkdate 2024 3 14) (Some 15) (Some 3) (Some 1990) = Some a /\
    0 <= a <= 2024 - 1990.
Proof.
  destruct (calc_age_not_negative (mkdate 2024 3 14) 15 3 1990
              eq_refl eq_refl) as [a [H1 [H2 _]]].
  exists a. now split.
Defined.

(** X19: The age never goes down as the calendar advances: for the same birth
    date, a later day gives an age at least as high. *)
Theorem calc_age_monotone (t1 t2 : date) (d m y : option Z) (a1 a2 : Z) :
  date_leb t1 t2 = true ->
  calc_age t1 d m y = Some a1 ->
  calc_age t2 d m y = Some a2 ->
  a1 <= a2.
Proof.
  intros Hle H1 H2.
  apply calc_age_Some in H1, H2.
  destruct H1 as [d1 [m1 [y1 [-> [-> [-> [_ ->]]]]]]].
  destruct H2 as [d2 [m2 [y2 [[= <-] [[= <-] [[= <-] [_ ->]]]]]]].
  unfold date_leb in Hle. apply negb_true_iff in Hle.
  assert (Hnot : ~ (year t2 < year t1 \/
                    (year t2 = year t1 /\
                     (month t2 < month t1 \/
                      (month t2 = month t1 /\ day t2 < day t1)))))
    by (intros Habs; apply (date_ltb_spec t2 t1) in Habs; congruence).
  destruct (tuple_ltb (month t1, day t1) (m1, d1)) eqn:Hb1;
    destruct (tuple_ltb (month t2, day t2) (m1, d1)) eqn:Hb2;
    try lia.
  apply tuple_ltb_spec in Hb2. cbn [fst snd] in Hb2.
  assert (Hn1 : ~ (month t1 < m1 \/ (month t1 = m1 /\ day t1 < d1))).
  { intros Habs.
    assert (tuple_ltb (month t1, day t1) (m1, d1) = true); [|congruence].
    now apply tuple_ltb_spec. }
  lia.
Qed.

Lemma calc_age_monotone_witness : 33 <= 34.
Proof.
  exact (calc_age_monotone (mkdate 2024 3 14) (mkdate 2024 3 15)
           (Some 15) (Some 3) (Some 1990) 33 34 eq_refl eq_refl eq_refl).
Defined.

(** ** The stored user names *)

Lemma lstrip_at_head (s : str) :
  lstrip_at s = [] \/ exists c rest, lstrip_at s = c :: rest /\ c <> 64.
Proof.
  induction s as [|c rest IH]; cbn; [now left|].
  destruct (Z.eqb_spec c 64); [exact IH|]. right. now exists c, rest.
Qed.

Lemma lstrip_at_fixed (c : Z) (rest : str) :
  c <> 64 -> lstrip_at (c :: rest) = c :: rest.
Proof. intros H. cbn. now destruct (Z.eqb_spec c 64). Qed.

(** X20: A stored user name is absent, or a text that is not empty and does not
    start with [@]; it is absent exactly when the field was absent or made
    of [@] signs only; and storing a stored value again changes nothing. *)
Theorem username_field_normalised (x : option str) :
  (forall s, username_field x = Some s ->
             exists c rest, s = c :: rest /\ c <> 64) /\
  (username_field x = None <->
   forall s, x = Some s -> forallb (fun c => c =? 64) s = true) /\
  username_field (username_field x) = username_field x.
Proof.
  assert (Hs0 : forall s, x = Some s -> or_empty x = s)
    by (intros s ->; now destruct s).
  assert (Hall : forall s, lstrip_at s = []
                           <-> forallb (fun c => c =? 64) s = true).
  { induction s as [|c rest IH]; cbn [lstrip_at forallb]; [tauto|].
    destruct (c =? 64); cbn [andb]; [exact IH|].
    split; discriminate. }
  destruct (lstrip_at_head (or_empty x)) as [Hnil|[c [rest [Hl Hc]]]].
  - assert (Hu : username_field x = None)
      by (unfold username_field; now rewrite Hnil).
    rewrite Hu. split; [discriminate|]. split; [|reflexivity].
    split; [|reflexivity]. intros _ s Hx. apply Hall.
    now rewrite <- (Hs0 s Hx).
  - assert (Hu : username_field x = Some (c :: rest))
      by (unfold username_field; now rewrite Hl).
    rewrite Hu. split; [intros s [= <-]; now exists c, rest|].
    split.
    + split; [discriminate|]. intros H. exfalso.
      destruct x as [s|]; [|discriminate].
      specialize (H s eq_refl). apply Hall in H.
      rewrite (Hs0 s eq_refl) in Hl. congruence.
    + unfold username_field. cbn [or_empty].
      now rewrite (lstrip_at_fixed c rest Hc).
Qed.

(** ** A reminder that is due is sent *)

Lemma requests_at_least_one (E : Env) (k : kind) (today : date)
  (people : list Person) (p : Person) :
  In p people -> configured E = true -> due k today p = true ->
  (1 <= requests E k (id p) (year today) today people)%nat.
Proof.
  intros Hin Hconf Hdue. unfold requests.
  assert (Hf : In p (filter (fun q => configured E && due k today q
                                      && (id q =? id p)
                                      && (year today =? year today)) people)).
  { apply filter_In. split; [assumption|].
    now rewrite Hconf, Hdue, !Z.eqb_refl. }
  destruct (filter _ people); [contradiction|cbn; lia].
Qed.

(** X14: With credentials set and distinct person ids, a scan that completes
    sends exactly one reminder of a kind to a stored person for whom it is
    due (both birth values set, the next birthday the right number of days
    ahead, the marker not the current year), and stores the person with
    the marker of the current year. *)
Theorem due_reminder_is_sent_once (E : Env) (k : kind) (db db' : DB)
  (w w' : world) (u : unit) (p : Person) (d m : Z) (bday : date) :
  configured E = true ->
  NoDup (map id (persons db)) ->
  In p (persons db) ->
  skipped p = false ->
  birth_day p = Some d -> birth_month p = Some m ->
  next_occurrence (w_today w) m d = Ok bday ->
  days_between bday (w_today w) = days_of k ->
  marker k p <> Some (year (w_today w)) ->
  _check_birthdays_and_notify E db w = (db', w', Ok u) ->
  sent k (id p) (year (w_today w)) (w_trace w')
  = S (sent k (id p) (year (w_today w)) (w_trace w)) /\
  exists p', In p' (persons db') /\ id p' = id p /\
             marker k p' = Some (year (w_today w)).
Proof.
  intros Hconf Hnd Hin Hskip Hd Hm Hnext Hleft Hmark Hscan.
  pose proof (due_true k (w_today w) p d m bday Hskip Hd Hm Hnext Hleft Hmark)
    as Hdue.
  destruct (scan_Ok _ _ _ _ _ _ Hscan) as [Hrows Hsent].
  split.
  - rewrite Hsent.
    pose proof (requests_at_least_one E k (w_today w) (persons db) p
                  Hin Hconf Hdue).
    pose proof (requests_at_most_one E k (id p) (year (w_today w))
                  (w_today w) (persons db) Hnd).
    lia.
  - exists (updated (w_today w) p). rewrite Hrows. split; [|split].
    + now apply in_map.
    + apply id_updated.
    + now rewrite marker_updated, Hdue.
Qed.

Lemma due_reminder_is_sent_once_witness :
  let E := mkEnv (Some "token"%string) (Some "chat"%string)
             (fun _ => Raise (URLError "timed out")) (fun _ => false) in
  let today := mkdate 2023 3 4 in
  let ada := mkPerson 1 (Some "Ada"%string) None (Some 11) (Some 3) None
               None None None in
  sent Days7 1 2023
    (w_trace (snd (fst (_check_birthdays_and_notify E (mkDB [ada] [] [] [])
                          (mkWorld today []))))) = 1%nat.
Proof.
  cbv zeta.
  exact (proj1 (due_reminder_is_sent_once
                  (mkEnv (Some "token"%string) (Some "chat"%string)
                     (fun _ => Raise (URLError "timed out")) (fun _ => false))
                  Days7
                  (mkDB [mkPerson 1 (Some "Ada"%string) None (Some 11)
                           (Some 3) None None None None] [] [] [])
                  _ (mkWorld (mkdate 2023 3 4) []) _ tt
                  (mkPerson 1 (Some "Ada"%string) None (Some 11) (Some 3)
                     None None None None)
                  11 3 (mkdate 2023 3 11)
                  eq_refl
                  ltac:(cbn; constructor; [intros []|constructor])
                  ltac:(left; reflexivity)
                  eq_refl eq_refl eq_refl eq_refl eq_refl
                  ltac:(discriminate) eq_refl)).
Defined.
